(** * Jugaad form validator: a shallow embedding of [validateForm]

    Source: [src/11-jugaad-form-validator.js].  The function receives one
    JavaScript value and returns [{ isValid, errors }].  The embedding keeps
    the JavaScript data the function can observe:

    - strings are sequences of UTF-16 code units ([list N]), so [length] is
      what [.length] returns;
    - numbers are binary64 values written sign / mantissa / exponent;
      comparison and integrality are decided on the exact value denoted;
    - objects are a kind (ordinary, array, callable) and a finite map from
      property names to values; reading a property is a lookup without side
      effects, and a property that is not there reads as [undefined];
    - the [errors] object is a finite map from field names to messages.

    The built-in operations the function calls ([trim], [indexOf],
    [lastIndexOf], [startsWith], [includes], [Number], [Number.isInteger],
    [Boolean], [typeof], ...) follow ECMA-262. *)

From Stdlib Require Import ZArith NArith Lia Bool Ascii String.
From stdpp Require Import base tactics option list gmap strings.

Local Open Scope Z_scope.

(** ** Strings *)

Module JSString.

(** A UTF-16 code unit. *)
Abbreviation code_unit := N.

Abbreviation t := (list code_unit).

(** The code units of an ASCII literal. *)
Definition lit (s : string) : t :=
  List.map N_of_ascii (list_ascii_of_string s).

Definition eqb (a b : t) : bool := bool_decide (a = b).

(** [WhiteSpace] and [LineTerminator] of ECMA-262: the code units removed
    by [String.prototype.trim] and skipped around a numeric literal by
    [Number(string)]. *)
Definition is_white_space (c : code_unit) : bool :=
  ((c =? 9) || (c =? 10) || (c =? 11) || (c =? 12) || (c =? 13)
   || (c =? 32) || (c =? 160) || (c =? 5760)
   || ((8192 <=? c) && (c <=? 8202))
   || (c =? 8232) || (c =? 8233) || (c =? 8239) || (c =? 8287)
   || (c =? 12288) || (c =? 65279))%N.

Fixpoint trimStart (s : t) : t :=
  match s with
  | [] => []
  | c :: s' => if is_white_space c then trimStart s' else s
  end.

Fixpoint trimEnd (s : t) : t :=
  match s with
  | [] => []
  | c :: s' =>
      match trimEnd s' with
      | [] => if is_white_space c then [] else [c]
      | r => c :: r
      end
  end.

(** [s.trim()] *)
Definition trim (s : t) : t := trimEnd (trimStart s).

(** [s.startsWith(p)] *)
Fixpoint startsWith (s p : t) : bool :=
  match p, s with
  | [], _ => true
  | _ :: _, [] => false
  | a :: p', b :: s' => (a =? b)%N && startsWith s' p'
  end.

(** [a < b] on strings: code units compared left to right. *)
Fixpoint lt (a b : t) : bool :=
  match a, b with
  | _, [] => false
  | [], _ :: _ => true
  | x :: a', y :: b' => (x <? y)%N || ((x =? y)%N && lt a' b')
  end.

(** Scan for [needle] in the suffix [s] that starts at index [k]. *)
Fixpoint index_from (needle s : t) (k : Z) : Z :=
  if startsWith s needle then k
  else match s with
       | [] => -1
       | _ :: s' => index_from needle s' (k + 1)
       end.

(** [s.indexOf(needle, pos)]: [pos] is clamped to [0 .. s.length]. *)
Definition indexOf (s needle : t) (pos : Z) : Z :=
  let start := Z.min (Z.max pos 0) (Z.of_nat (length s)) in
  index_from needle (drop (Z.to_nat start) s) start.

(** Scan like [index_from], remembering the last match in [found]. *)
Fixpoint last_index_from (needle s : t) (k found : Z) : Z :=
  let found' := if startsWith s needle then k else found in
  match s with
  | [] => found'
  | _ :: s' => last_index_from needle s' (k + 1) found'
  end.

(** [s.lastIndexOf(needle)] with no position argument. *)
Definition lastIndexOf (s needle : t) : Z :=
  last_index_from needle s 0 (-1).

End JSString.

Abbreviation jsstring := JSString.t.

(** ** Values *)

(** A Number: [NaN], an infinity, or the finite value
    [(-1)^neg * m * 2^e]; the zeros are [Finite false 0 _] and
    [Finite true 0 _]. *)
Inductive number : Type :=
| NaN
| Infinity (neg : bool)
| Finite (neg : bool) (m : N) (e : Z).

(** What [typeof] and [Array.isArray] can tell about an object. *)
Inductive obj_kind : Type := Ordinary | ArrayExotic | Callable.

(** A JavaScript value; an object carries the properties that reading
    [o.key] can see. *)
#[warnings="-register-all"]
Inductive value : Type :=
| VUndefined
| VNull
| VBool (b : bool)
| VNum (x : number)
| VBigInt (z : Z)
| VStr (s : jsstring)
| VSymbol (id : nat)
| VObject (k : obj_kind) (props : gmap string value).

(** ** Numbers *)

Module JSNumber.

Definition signed (neg : bool) (m : N) : Z :=
  if neg then - Z.of_N m else Z.of_N m.

(** Order of [s1 * 2^e1] and [s2 * 2^e2], decided at the smaller exponent. *)
Definition compare_finite (s1 e1 s2 e2 : Z) : comparison :=
  let e0 := Z.min e1 e2 in
  (s1 * 2 ^ (e1 - e0)) ?= (s2 * 2 ^ (e2 - e0)).

(** [x < y]; every comparison with [NaN] is false. *)
Definition lt (x y : number) : bool :=
  match x, y with
  | NaN, _ | _, NaN => false
  | Infinity n1, Infinity n2 => n1 && negb n2
  | Infinity n1, Finite _ _ _ => n1
  | Finite _ _ _, Infinity n2 => negb n2
  | Finite n1 m1 e1, Finite n2 m2 e2 =>
      match compare_finite (signed n1 m1) e1 (signed n2 m2) e2 with
      | Lt => true
      | _ => false
      end
  end.

(** [x > y] *)
Definition gt (x y : number) : bool := lt y x.

(** [Number.isNaN(x)] *)
Definition isNaN (x : number) : bool :=
  match x with NaN => true | _ => false end.

(** [Number.isInteger(x)]: finite, with no fractional part. *)
Definition isInteger (x : number) : bool :=
  match x with
  | Finite _ m e => (0 <=? e) || (Z.of_N m mod 2 ^ (- e) =? 0)
  | _ => false
  end.

(** The number written as the integer literal [k] (exact below [2^53]). *)
Definition of_Z (k : Z) : number := Finite (k <? 0) (Z.to_N (Z.abs k)) 0.

(** *** Rounding a non-negative rational [p / q] to binary64 *)

Definition round_half_even (n d : Z) : Z :=
  let q := n / d in
  match 2 * (n mod d) ?= d with
  | Lt => q
  | Gt => q + 1
  | Eq => if Z.even q then q else q + 1
  end.

(** [floor (log2 (p / q))] for positive [p], [q]. *)
Definition log2_ratio (p q : Z) : Z :=
  let d := Z.log2 p - Z.log2 q in
  let above := if 0 <=? d then q * 2 ^ d <=? p else q <=? p * 2 ^ (- d) in
  if above then d else d - 1.

(** Round to nearest, ties to even, with 53 bits of precision, gradual
    underflow below [2^-1022] and overflow to infinity from [2^1024].
    (ECMA-262 lets an engine drop the digits after the 20th significant
    one before rounding; engines round the exact value, as here.) *)
Definition to_binary64 (neg : bool) (p q : Z) : number :=
  if p =? 0 then Finite neg 0 0
  else
    let e := Z.max (log2_ratio p q - 52) (-1074) in
    let m := if 0 <=? e then round_half_even p (q * 2 ^ e)
             else round_half_even (p * 2 ^ (- e)) q in
    let '(m, e) := if m =? 2 ^ 53 then (2 ^ 52, e + 1) else (m, e) in
    if 971 <? e then Infinity neg else Finite neg (Z.to_N m) e.

(** *** [Number(string)]: the grammar [StringNumericLiteral] *)

Definition is_digit (c : N) : bool := ((48 <=? c) && (c <=? 57))%N.

Definition digit_of (c : N) : option Z :=
  if is_digit c then Some (Z.of_N c - 48)
  else if ((97 <=? c) && (c <=? 102))%N then Some (Z.of_N c - 87)
  else if ((65 <=? c) && (c <=? 70))%N then Some (Z.of_N c - 55)
  else None.

Definition is_digit_in (base : Z) (c : N) : bool :=
  match digit_of c with
  | Some d => d <? base
  | None => false
  end.

Fixpoint digits_value (base : Z) (ds : jsstring) (acc : Z) : Z :=
  match ds with
  | [] => acc
  | c :: r => digits_value base r (acc * base + default 0 (digit_of c))
  end.

Fixpoint span_digits (s : jsstring) : jsstring * jsstring :=
  match s with
  | [] => ([], [])
  | c :: r =>
      if is_digit c
      then let '(ds, rest) := span_digits r in (c :: ds, rest)
      else ([], s)
  end.

Definition nonempty (s : jsstring) : bool :=
  match s with [] => false | _ => true end.

(** [0x], [0o], [0b] in either case give the radix. *)
Definition radix_prefix (s : jsstring) : option Z :=
  match s with
  | c0 :: c1 :: _ =>
      if (c0 =? 48)%N then
        if ((c1 =? 120) || (c1 =? 88))%N then Some 16
        else if ((c1 =? 111) || (c1 =? 79))%N then Some 8
        else if ((c1 =? 98) || (c1 =? 66))%N then Some 2
        else None
      else None
  | _ => None
  end.

Definition parse_radix (base : Z) (ds : jsstring) : option Z :=
  if nonempty ds && forallb (is_digit_in base) ds
  then Some (digits_value base ds 0)
  else None.

Definition split_sign (s : jsstring) : bool * jsstring :=
  match s with
  | c :: r =>
      if (c =? 43)%N then (false, r)
      else if (c =? 45)%N then (true, r)
      else (false, s)
  | [] => (false, [])
  end.

(** An optional [ExponentPart] that must reach the end of the input. *)
Definition parse_exponent (r : jsstring) : option Z :=
  match r with
  | [] => Some 0
  | c :: r' =>
      if ((c =? 101) || (c =? 69))%N then
        let '(neg, ds) := split_sign r' in
        if nonempty ds && forallb is_digit ds
        then Some (if neg then - digits_value 10 ds 0 else digits_value 10 ds 0)
        else None
      else None
  end.

(** [StrUnsignedDecimalLiteral] other than [Infinity]: the digits read as
    an integer [n] and a power of ten [x], the value being [n * 10^x]. *)
Definition parse_decimal (u : jsstring) : option (Z * Z) :=
  let '(ip, r1) := span_digits u in
  let '(fp, r2) :=
    match r1 with
    | c :: r => if (c =? 46)%N then span_digits r else ([], r1)
    | [] => ([], [])
    end in
  if nonempty ip || nonempty fp then
    match parse_exponent r2 with
    | Some x => Some (digits_value 10 (ip ++ fp) 0, x - Z.of_nat (length fp))
    | None => None
    end
  else None.

Definition StrDecimalLiteral (s : jsstring) : number :=
  let '(neg, u) := split_sign s in
  if JSString.eqb u (JSString.lit "Infinity") then Infinity neg
  else
    match parse_decimal u with
    | Some (n, x) =>
        if 0 <=? x then to_binary64 neg (n * 10 ^ x) 1
        else to_binary64 neg n (10 ^ (- x))
    | None => NaN
    end.

Definition StrNumericLiteral (s : jsstring) : number :=
  match radix_prefix s with
  | Some base =>
      match parse_radix base (drop 2 s) with
      | Some n => to_binary64 false n 1
      | None => NaN
      end
  | None => StrDecimalLiteral s
  end.

(** [Number(s)] for a string [s]: white space around the literal is
    skipped, the empty literal is [+0], anything else that is not a
    literal is [NaN]. *)
Definition StringToNumber (s : jsstring) : number :=
  match JSString.trim s with
  | [] => Finite false 0 0
  | lit => StrNumericLiteral lit
  end.

End JSNumber.

(** ** Operators on values *)

(** [typeof v] *)
Definition typeof (v : value) : string :=
  match v with
  | VUndefined => "undefined"
  | VNull => "object"
  | VBool _ => "boolean"
  | VNum _ => "number"
  | VBigInt _ => "bigint"
  | VStr _ => "string"
  | VSymbol _ => "symbol"
  | VObject Callable _ => "function"
  | VObject _ _ => "object"
  end.

(** [v === null] *)
Definition is_null (v : value) : bool :=
  match v with VNull => true | _ => false end.

(** [Array.isArray(v)] *)
Definition Array_isArray (v : value) : bool :=
  match v with VObject ArrayExotic _ => true | _ => false end.

(** [o.key] on a value that is neither [null] nor [undefined]. *)
Definition Get (o : value) (key : string) : value :=
  match o with
  | VObject _ props => default VUndefined (props !! key)
  | _ => VUndefined
  end.

(** [v ?? d] *)
Definition nullish_coalesce (v d : value) : value :=
  match v with
  | VUndefined | VNull => d
  | _ => v
  end.

(** [Boolean(v)] *)
Definition ToBoolean (v : value) : bool :=
  match v with
  | VUndefined | VNull => false
  | VBool b => b
  | VNum NaN => false
  | VNum (Infinity _) => true
  | VNum (Finite _ m _) => negb (m =? 0)%N
  | VBigInt z => negb (z =? 0)
  | VStr s => JSNumber.nonempty s
  | VSymbol _ | VObject _ _ => true
  end.

(** [s[i]]: a string of one code unit, or [undefined] past the end. *)
Definition string_index (s : jsstring) (i : nat) : value :=
  match s !! i with
  | Some c => VStr [c]
  | None => VUndefined
  end.

(** [arr.includes(v)] for an array literal of strings: only a string with
    the same code units is found. *)
Definition includes (arr : list jsstring) (v : value) : bool :=
  match v with
  | VStr s => existsb (JSString.eqb s) arr
  | _ => false
  end.

(** [Object.keys(o)] of the errors object (the order is not modelled). *)
Definition Object_keys (o : gmap string string) : list string :=
  (map_to_list o).*1.

(** ** The validator *)

Record result : Type := { isValid : bool; errors : gmap string string }.

(** The loop shared by the phone and pincode checks:
    [for (i = 0; i < s.length; i++) { ch = s[i];
       if (ch < "0" || ch > "9") { errors[key] = msg; break; } }],
    [chars] being the code units from index [i] on. *)
Fixpoint digit_loop (key msg : string) (chars : jsstring)
    (errors : gmap string string) : gmap string string :=
  match chars with
  | [] => errors
  | ch :: rest =>
      if JSString.lt [ch] (JSString.lit "0") || JSString.lt (JSString.lit "9") [ch]
      then <[key := msg]> errors
      else digit_loop key msg rest errors
  end.

(** 1. Validate name *)
Definition validate_name (formData : value) (errors : gmap string string)
  : gmap string string :=
  let name := Get formData "name" in
  match name with
  | VStr name =>
      if (length (JSString.trim name) <? 2)%nat
         || (50 <? length (JSString.trim name))%nat
      then <["name" := "Name must be 2-50 characters"]> errors
      else errors
  | _ => <["name" := "Name must be 2-50 characters"]> errors
  end.

(** 2. Validate email (exactly one "@", at least one "." after "@") *)
Definition validate_email (formData : value) (errors : gmap string string)
  : gmap string string :=
  let email := Get formData "email" in
  let emailInvalid :=
    match email with
    | VStr email =>
        let atIndex := JSString.indexOf email (JSString.lit "@") 0 in
        let lastAtIndex := JSString.lastIndexOf email (JSString.lit "@") in
        if (atIndex =? -1) || negb (atIndex =? lastAtIndex) then true
        else
          let dotAfterAt :=
            negb (JSString.indexOf email (JSString.lit ".") (atIndex + 1) =? -1) in
          if negb dotAfterAt then true else false
    | _ => true
    end in
  if emailInvalid then <["email" := "Invalid email format"]> errors
  else errors.

(** 3. Validate phone (exactly 10 digits, starts with 6/7/8/9) *)
Definition validate_phone (formData : value) (errors : gmap string string)
  : gmap string string :=
  let phone := Get formData "phone" in
  match phone with
  | VStr phone =>
      if negb (length phone =? 10)%nat
      then <["phone" := "Invalid Indian phone number"]> errors
      else if negb (includes [JSString.lit "6"; JSString.lit "7";
                              JSString.lit "8"; JSString.lit "9"]
                      (string_index phone 0))
      then <["phone" := "Invalid Indian phone number"]> errors
      else digit_loop "phone" "Invalid Indian phone number" phone errors
  | _ => <["phone" := "Invalid Indian phone number"]> errors
  end.

(** 4. Validate age (number or numeric string, integer 16-100).  The
    source also stores [parsed] back into [age]; nothing reads it after. *)
Definition validate_age (formData : value) (errors : gmap string string)
  : gmap string string :=
  let age := Get formData "age" in
  match age with
  | VStr age =>
      if JSString.eqb (JSString.trim age) (JSString.lit "")
      then <["age" := "Age must be an integer between 16 and 100"]> errors
      else
        let parsed := JSNumber.StringToNumber age in
        if JSNumber.isNaN parsed
           || negb (JSNumber.isInteger parsed)
           || JSNumber.lt parsed (JSNumber.of_Z 16)
           || JSNumber.gt parsed (JSNumber.of_Z 100)
        then <["age" := "Age must be an integer between 16 and 100"]> errors
        else errors
  | VNum age =>
      if negb (JSNumber.isInteger age)
         || JSNumber.lt age (JSNumber.of_Z 16)
         || JSNumber.gt age (JSNumber.of_Z 100)
      then <["age" := "Age must be an integer between 16 and 100"]> errors
      else errors
  | _ => <["age" := "Age must be an integer between 16 and 100"]> errors
  end.

(** 5. Validate pincode (exactly 6 digits, not starting with 0) *)
Definition validate_pincode (formData : value) (errors : gmap string string)
  : gmap string string :=
  let pincode := Get formData "pincode" in
  match pincode with
  | VStr pincode =>
      if negb (length pincode =? 6)%nat
         || JSString.startsWith pincode (JSString.lit "0")
      then <["pincode" := "Invalid Indian pincode"]> errors
      else digit_loop "pincode" "Invalid Indian pincode" pincode errors
  | _ => <["pincode" := "Invalid Indian pincode"]> errors
  end.

(** 6. Validate state: [formData?.state ?? ""] *)
Definition validate_state (formData : value) (errors : gmap string string)
  : gmap string string :=
  let state := nullish_coalesce (Get formData "state") (VStr (JSString.lit "")) in
  match state with
  | VStr state =>
      if JSString.eqb (JSString.trim state) (JSString.lit "")
      then <["state" := "State is required"]> errors
      else errors
  | _ => <["state" := "State is required"]> errors
  end.

(** 7. Validate agreeTerms (truthy) *)
Definition validate_agreeTerms (formData : value) (errors : gmap string string)
  : gmap string string :=
  if negb (ToBoolean (Get formData "agreeTerms"))
  then <["agreeTerms" := "Must agree to terms"]> errors
  else errors.

Definition validateForm (formData : value) : result :=
  let errors : gmap string string := ∅ in
  if negb (String.eqb (typeof formData) "object")
     || is_null formData
     || Array_isArray formData
  then {| isValid := false; errors := {[ "form" := "Invalid form data" ]} |}
  else
    let errors := validate_name formData errors in
    let errors := validate_email formData errors in
    let errors := validate_phone formData errors in
    let errors := validate_age formData errors in
    let errors := validate_pincode formData errors in
    let errors := validate_state formData errors in
    let errors := validate_agreeTerms formData errors in
    {| isValid := (length (Object_keys errors) =? 0)%nat; errors := errors |}.

(** An ordinary object built from its properties, and literals. *)
Definition object (fields : list (string * value)) : value :=
  VObject Ordinary (list_to_map fields).

Definition str (s : string) : value := VStr (JSString.lit s).

Definition num (k : Z) : value := VNum (JSNumber.of_Z k).

(** * What the specification says

    The predicates below restate the rules of the specification; they are
    compared with the validator in the last part. *)

(** ** Records *)

(** A record: a non-null object that is not an array. *)
Definition is_record (v : value) : Prop :=
  typeof v = "object" ∧ v ≠ VNull ∧ Array_isArray v = false.

(** ** name *)

(** A string whose length after trimming lies in [2 .. 50]. *)
Definition name_ok (v : value) : Prop :=
  ∃ s, v = VStr s ∧ (2 ≤ length (JSString.trim s) ≤ 50)%nat.

(** ** email *)

(** Occurrences of one code unit in a string: how many, the first and the
    last position. *)
Fixpoint occurrences (c : N) (s : jsstring) : nat :=
  match s with
  | [] => 0
  | x :: s' => if (c =? x)%N then S (occurrences c s') else occurrences c s'
  end.

Fixpoint first_occ (c : N) (s : jsstring) : option nat :=
  match s with
  | [] => None
  | x :: s' => if (c =? x)%N then Some 0%nat else S <$> first_occ c s'
  end.

Fixpoint last_occ (c : N) (s : jsstring) : option nat :=
  match s with
  | [] => None
  | x :: s' =>
      match last_occ c s' with
      | Some i => Some (S i)
      | None => if (c =? x)%N then Some 0%nat else None
      end
  end.

(** A string with exactly one ["@"] and a ["."] somewhere after it. *)
Definition email_ok (v : value) : Prop :=
  ∃ s, v = VStr s
       ∧ occurrences 64 s = 1%nat
       ∧ ∃ i j, s !! i = Some 64%N ∧ s !! j = Some 46%N ∧ (i < j)%nat.

(** ** phone and pincode *)

Definition all_ascii_digits (s : jsstring) : Prop :=
  Forall (λ c, (48 ≤ c ≤ 57)%N) s.

(** A string of exactly 10 ASCII digits that starts with 6, 7, 8 or 9. *)
Definition phone_ok (v : value) : Prop :=
  ∃ s, v = VStr s ∧ length s = 10%nat ∧ all_ascii_digits s
       ∧ ∃ c, head s = Some c ∧ (c = 54 ∨ c = 55 ∨ c = 56 ∨ c = 57)%N.

(** A string of exactly 6 ASCII digits that does not start with ["0"]. *)
Definition pincode_ok (v : value) : Prop :=
  ∃ s, v = VStr s ∧ length s = 6%nat ∧ all_ascii_digits s
       ∧ head s ≠ Some 48%N.

(** ** age *)

(** The number [x] is finite and its value is the integer [k]:
    [(-1)^neg * m * 2^e = k]. *)
Definition denotes_integer (x : number) (k : Z) : Prop :=
  match x with
  | Finite neg m e =>
      JSNumber.signed neg m * 2 ^ Z.max e 0 = k * 2 ^ Z.max (- e) 0
  | _ => False
  end.

(** A finite integer in [16 .. 100]. *)
Definition integer_16_100 (x : number) : Prop :=
  ∃ k, 16 ≤ k ≤ 100 ∧ denotes_integer x k.

Definition all_white_space (s : jsstring) : Prop :=
  Forall (λ c, JSString.is_white_space c = true) s.

Definition all_digits (s : jsstring) : Prop :=
  Forall (λ c, JSNumber.is_digit c = true) s.

(** A character that cannot follow the digits of a numeric literal: not a
    digit, not ["."], not an exponent mark and not a radix letter. *)
Definition numeral_char (c : N) : bool :=
  JSNumber.is_digit c
  || ((c =? 46) || (c =? 101) || (c =? 69) || (c =? 120) || (c =? 88)
      || (c =? 111) || (c =? 79) || (c =? 98) || (c =? 66))%N.

(** A number, or a string that represents a number, whose numeric value is
    a finite integer in [16 .. 100]. *)
Definition age_ok (v : value) : Prop :=
  match v with
  | VNum x => integer_16_100 x
  | VStr s =>
      JSNumber.StringToNumber s ≠ NaN
      ∧ integer_16_100 (JSNumber.StringToNumber s)
  | _ => False
  end.

(** ** state *)

(** The effective value, in the words of the specification: the field's
    value when it is present and not [null], the empty string otherwise. *)
Definition spec_effective_state (field : option value) : value :=
  match field with
  | None | Some VNull => VStr []
  | Some v => v
  end.

(** A string whose trimmed form is not empty. *)
Definition state_ok (v : value) : Prop :=
  ∃ s, v = VStr s ∧ JSString.trim s ≠ [].

(** ** agreeTerms *)

(** The six falsy values the specification lists:
    [0] (of either sign), [""], [null], [undefined], [NaN], [false]. *)
Definition listed_falsy (v : value) : Prop :=
  match v with
  | VNum (Finite _ m _) => m = 0%N
  | VNum NaN => True
  | VStr s => s = []
  | VNull | VUndefined => True
  | VBool b => b = false
  | _ => False
  end.

(** The values [Boolean] maps to [false]: the listed ones and the BigInt
    zero [0n]. *)
Definition falsy (v : value) : Prop := listed_falsy v ∨ v = VBigInt 0.

(** ** Forms used as examples *)

(** The admission form of the specification's first example, with
    [agreeTerms: 0n]. *)
Definition form_agreeing_with_0n : gmap string value :=
  list_to_map
    [("name", str "Rahul Sharma"); ("email", str "rahul@gmail.com");
     ("phone", str "9876543210"); ("age", num 20); ("pincode", str "400001");
     ("state", str "Maharashtra"); ("agreeTerms", VBigInt 0)].

Definition admission_form : value :=
  object [("name", str "Rahul Sharma"); ("email", str "rahul@gmail.com");
          ("phone", str "9876543210"); ("age", num 20);
          ("pincode", str "400001"); ("state", str "Maharashtra");
          ("agreeTerms", VBool true)].

Definition rejected_form : value :=
  object [("name", str ""); ("email", str "bad-email"); ("phone", str "12345");
          ("age", num 10); ("pincode", str "0123"); ("state", VNull);
          ("agreeTerms", VBool false)].

(** * The decision of each block

    Each block of the validator writes its key or leaves the errors object
    alone; [put_if] is that step and the [_invalid] functions are the
    conditions under which the blocks write. *)

Definition put_if (c : bool) (key msg : string) (e : gmap string string)
  : gmap string string :=
  if c then <[key := msg]> e else e.

Definition name_invalid (v : value) : bool :=
  match v with
  | VStr s =>
      (length (JSString.trim s) <? 2)%nat || (50 <? length (JSString.trim s))%nat
  | _ => true
  end.

Definition email_invalid (v : value) : bool :=
  match v with
  | VStr s =>
      let atIndex := JSString.indexOf s (JSString.lit "@") 0 in
      (atIndex =? -1)
      || negb (atIndex =? JSString.lastIndexOf s (JSString.lit "@"))
      || (JSString.indexOf s (JSString.lit ".") (atIndex + 1) =? -1)
  | _ => true
  end.

Definition phone_invalid (v : value) : bool :=
  match v with
  | VStr s =>
      negb (length s =? 10)%nat
      || negb (includes [JSString.lit "6"; JSString.lit "7";
                         JSString.lit "8"; JSString.lit "9"] (string_index s 0))
      || negb (forallb JSNumber.is_digit s)
  | _ => true
  end.

Definition number_invalid (x : number) : bool :=
  negb (JSNumber.isInteger x)
  || JSNumber.lt x (JSNumber.of_Z 16)
  || JSNumber.gt x (JSNumber.of_Z 100).

Definition age_invalid (v : value) : bool :=
  match v with
  | VStr s =>
      JSString.eqb (JSString.trim s) (JSString.lit "")
      || JSNumber.isNaN (JSNumber.StringToNumber s)
      || number_invalid (JSNumber.StringToNumber s)
  | VNum x => number_invalid x
  | _ => true
  end.

Definition pincode_invalid (v : value) : bool :=
  match v with
  | VStr s =>
      negb (length s =? 6)%nat
      || JSString.startsWith s (JSString.lit "0")
      || negb (forallb JSNumber.is_digit s)
  | _ => true
  end.

Definition state_invalid (v : value) : bool :=
  match nullish_coalesce v (VStr (JSString.lit "")) with
  | VStr s => JSString.eqb (JSString.trim s) (JSString.lit "")
  | _ => true
  end.

Definition agreeTerms_invalid (v : value) : bool := negb (ToBoolean v).

(** The errors object of a record input. *)
Definition field_errors (o : value) : gmap string string :=
  put_if (agreeTerms_invalid (Get o "agreeTerms")) "agreeTerms" "Must agree to terms"
    (put_if (state_invalid (Get o "state")) "state" "State is required"
      (put_if (pincode_invalid (Get o "pincode")) "pincode" "Invalid Indian pincode"
        (put_if (age_invalid (Get o "age")) "age"
           "Age must be an integer between 16 and 100"
          (put_if (phone_invalid (Get o "phone")) "phone"
             "Invalid Indian phone number"
            (put_if (email_invalid (Get o "email")) "email" "Invalid email format"
              (put_if (name_invalid (Get o "name")) "name"
                 "Name must be 2-50 characters" ∅)))))).

(** Rounding is exact on the integers 16 .. 100. *)
Definition exact_in_range (k : Z) : bool :=
  match JSNumber.to_binary64 false k 1 with
  | Finite neg m e =>
      negb (number_invalid (Finite neg m e))
      && (JSNumber.signed neg m * 2 ^ Z.max e 0 =? k * 2 ^ Z.max (- e) 0)
  | _ => false
  end.

(** ** The keys and messages the validator can write *)

(** The seven fields, in the order the validator checks them. *)
Definition field_keys : list string :=
  ["name"; "email"; "phone"; "age"; "pincode"; "state"; "agreeTerms"].

(** The message written under each key. *)
Definition message_of (key : string) : option string :=
  if String.eqb key "form" then Some "Invalid form data"
  else if String.eqb key "name" then Some "Name must be 2-50 characters"
  else if String.eqb key "email" then Some "Invalid email format"
  else if String.eqb key "phone" then Some "Invalid Indian phone number"
  else if String.eqb key "age"
       then Some "Age must be an integer between 16 and 100"
  else if String.eqb key "pincode" then Some "Invalid Indian pincode"
  else if String.eqb key "state" then Some "State is required"
  else if String.eqb key "agreeTerms" then Some "Must agree to terms"
  else None.

(** The condition under which the block of [key] writes, on the record [o]. *)
Definition field_invalid (o : value) (key : string) : bool :=
  if String.eqb key "name" then name_invalid (Get o "name")
  else if String.eqb key "email" then email_invalid (Get o "email")
  else if String.eqb key "phone" then phone_invalid (Get o "phone")
  else if String.eqb key "age" then age_invalid (Get o "age")
  else if String.eqb key "pincode" then pincode_invalid (Get o "pincode")
  else if String.eqb key "state" then state_invalid (Get o "state")
  else if String.eqb key "agreeTerms"
       then agreeTerms_invalid (Get o "agreeTerms")
  else false.

(** * Properties *)

(** ** What each block does to the errors object *)

Lemma lookup_put_if_ne c key msg e k :
  key ≠ k → put_if c key msg e !! k = e !! k.
Proof. intros Hne. destruct c; simpl; [by rewrite lookup_insert_ne|done]. Qed.

Lemma lookup_put_if_eq c key msg e :
  put_if c key msg e !! key = if c then Some msg else e !! key.
Proof. destruct c; simpl; [by rewrite lookup_insert_eq|done]. Qed.

Lemma lt_digit_bounds ch :
  JSString.lt [ch] (JSString.lit "0") || JSString.lt (JSString.lit "9") [ch]
  = negb (JSNumber.is_digit ch).
Proof.
  unfold JSNumber.is_digit.
  change (JSString.lit "0") with [48%N]. change (JSString.lit "9") with [57%N].
  cbn [JSString.lt]. rewrite !andb_false_r, !orb_false_r.
  destruct (N.ltb_spec ch 48), (N.leb_spec 48 ch), (N.ltb_spec 57 ch),
    (N.leb_spec ch 57); simpl; try reflexivity; lia.
Qed.

Lemma digit_loop_put_if key msg s e :
  digit_loop key msg s e = put_if (negb (forallb JSNumber.is_digit s)) key msg e.
Proof.
  induction s as [|ch s IH]; [done|].
  cbn [digit_loop forallb]. rewrite lt_digit_bounds.
  destruct (JSNumber.is_digit ch); simpl; [apply IH|done].
Qed.

Lemma validate_name_put o e :
  validate_name o e
  = put_if (name_invalid (Get o "name")) "name" "Name must be 2-50 characters" e.
Proof. unfold validate_name. by destruct (Get o "name"). Qed.

Lemma validate_email_put o e :
  validate_email o e
  = put_if (email_invalid (Get o "email")) "email" "Invalid email format" e.
Proof.
  unfold validate_email. destruct (Get o "email"); try done.
  cbn [email_invalid]. cbv zeta.
  destruct (_ =? -1); [done|]. destruct (negb (_ =? _)); [done|].
  cbn [orb]. by destruct (_ =? -1).
Qed.

Lemma validate_phone_put o e :
  validate_phone o e
  = put_if (phone_invalid (Get o "phone")) "phone"
      "Invalid Indian phone number" e.
Proof.
  unfold validate_phone. destruct (Get o "phone"); try done.
  cbn [phone_invalid]. destruct (negb (_ =? 10)%nat); [done|].
  destruct (negb (includes _ _)); [done|]. apply digit_loop_put_if.
Qed.

Lemma validate_age_put o e :
  validate_age o e
  = put_if (age_invalid (Get o "age")) "age"
      "Age must be an integer between 16 and 100" e.
Proof.
  unfold validate_age. destruct (Get o "age"); try done.
  cbn [age_invalid]. unfold number_invalid.
  destruct (JSString.eqb _ _); [done|]. cbv zeta.
  destruct (JSNumber.isNaN _); [done|]. done.
Qed.

Lemma validate_pincode_put o e :
  validate_pincode o e
  = put_if (pincode_invalid (Get o "pincode")) "pincode"
      "Invalid Indian pincode" e.
Proof.
  unfold validate_pincode. destruct (Get o "pincode"); try done.
  cbn [pincode_invalid]. destruct (negb (_ =? 6)%nat || _); [done|].
  apply digit_loop_put_if.
Qed.

Lemma validate_state_put o e :
  validate_state o e
  = put_if (state_invalid (Get o "state")) "state" "State is required" e.
Proof.
  unfold validate_state, state_invalid.
  by destruct (nullish_coalesce _ _).
Qed.

Lemma validate_agreeTerms_put o e :
  validate_agreeTerms o e
  = put_if (agreeTerms_invalid (Get o "agreeTerms")) "agreeTerms"
      "Must agree to terms" e.
Proof. reflexivity. Qed.

Lemma validateForm_record props :
  validateForm (VObject Ordinary props)
  = {| isValid := (length (Object_keys (field_errors (VObject Ordinary props))) =? 0)%nat;
       errors := field_errors (VObject Ordinary props) |}.
Proof.
  unfold validateForm. cbn [typeof is_null Array_isArray String.eqb negb orb].
  change (String.eqb "object" "object") with true. cbn [negb orb]. cbv zeta.
  rewrite validate_name_put, validate_email_put, validate_phone_put,
    validate_age_put, validate_pincode_put, validate_state_put,
    validate_agreeTerms_put.
  reflexivity.
Qed.

Ltac lookup_field :=
  rewrite validateForm_record; cbn [errors]; unfold field_errors;
  repeat (rewrite lookup_put_if_ne by done);
  rewrite lookup_put_if_eq;
  repeat (rewrite lookup_put_if_ne by done);
  rewrite lookup_empty.

Lemma errors_name props :
  errors (validateForm (VObject Ordinary props)) !! "name"
  = if name_invalid (Get (VObject Ordinary props) "name")
    then Some "Name must be 2-50 characters" else None.
Proof. lookup_field. reflexivity. Qed.

Lemma errors_age props :
  errors (validateForm (VObject Ordinary props)) !! "age"
  = if age_invalid (Get (VObject Ordinary props) "age")
    then Some "Age must be an integer between 16 and 100" else None.
Proof. lookup_field. reflexivity. Qed.

Lemma errors_email props :
  errors (validateForm (VObject Ordinary props)) !! "email"
  = if email_invalid (Get (VObject Ordinary props) "email")
    then Some "Invalid email format" else None.
Proof. lookup_field. reflexivity. Qed.

Lemma errors_phone props :
  errors (validateForm (VObject Ordinary props)) !! "phone"
  = if phone_invalid (Get (VObject Ordinary props) "phone")
    then Some "Invalid Indian phone number" else None.
Proof. lookup_field. reflexivity. Qed.

Lemma errors_pincode props :
  errors (validateForm (VObject Ordinary props)) !! "pincode"
  = if pincode_invalid (Get (VObject Ordinary props) "pincode")
    then Some "Invalid Indian pincode" else None.
Proof. lookup_field. reflexivity. Qed.

Lemma errors_state props :
  errors (validateForm (VObject Ordinary props)) !! "state"
  = if state_invalid (Get (VObject Ordinary props) "state")
    then Some "State is required" else None.
Proof. lookup_field. reflexivity. Qed.

Lemma errors_agreeTerms props :
  errors (validateForm (VObject Ordinary props)) !! "agreeTerms"
  = if agreeTerms_invalid (Get (VObject Ordinary props) "agreeTerms")
    then Some "Must agree to terms" else None.
Proof. lookup_field. reflexivity. Qed.

(** A field error is present (with its message) exactly when the decision
    is "invalid", and absent exactly when it is not. *)
Lemma if_invalid_iff (b : bool) (msg : string) (P : Prop) :
  (b = false ↔ P) →
  ((if b then Some msg else None) = Some msg ↔ ¬ P)
  ∧ ((if b then Some msg else None) = None ↔ P).
Proof.
  intros HP. destruct b; split; split; try done.
  - intros _ HP'. by apply HP in HP'.
  - intros HP'. by apply HP in HP'.
  - intros HnP. exfalso. apply HnP. by apply HP.
  - intros _. by apply HP.
Qed.

Lemma if_invalid_iff' (b : bool) (msg : string) (P : Prop) :
  (b = true ↔ P) →
  ((if b then Some msg else None) = Some msg ↔ P)
  ∧ ((if b then Some msg else None) = None ↔ ¬ P).
Proof.
  intros HP. destruct b; split; split; try done.
  - intros _. by apply HP.
  - intros HnP. exfalso. apply HnP. by apply HP.
  - intros HP'. by apply HP in HP'.
  - intros _ HP'. by apply HP in HP'.
Qed.

(** ** The verdict *)

(** C1: for every input, [isValid] is [true] exactly when the errors object
    has no key, and [false] exactly when it has at least one. *)
Theorem isValid_iff_no_errors (formData : value) :
  (isValid (validateForm formData) = true
   ↔ size (errors (validateForm formData)) = 0%nat)
  ∧ (isValid (validateForm formData) = false
     ↔ (1 ≤ size (errors (validateForm formData)))%nat).
Proof.
  unfold validateForm.
  destruct (negb (String.eqb (typeof formData) "object") || is_null formData
            || Array_isArray formData).
  - cbn [isValid errors]. rewrite map_size_singleton. split; split; (done || lia).
  - cbv zeta. cbn [isValid errors].
    set (e := validate_agreeTerms _ _).
    unfold Object_keys. rewrite length_fmap.
    rewrite length_map_to_list.
    destruct (size e); cbn; split; split; (done || lia).
Qed.

(** ** The pre-check *)

(** The records are the ordinary objects. *)
Lemma is_record_ordinary v : is_record v ↔ ∃ props, v = VObject Ordinary props.
Proof.
  split.
  - intros (Hty & Hnull & Harr).
    destruct v as [| | | | | | |[] props]; try done. by exists props.
  - intros [props ->]. by repeat split.
Qed.

(** C2: every input that is not a record gets exactly
    [{isValid: false, errors: {form: "Invalid form data"}}]; no other key
    is in the errors object. *)
Theorem not_record_form_error (formData : value) :
  ¬ is_record formData →
  validateForm formData
  = {| isValid := false; errors := {[ "form" := "Invalid form data" ]} |}
  ∧ (∀ key, key ≠ "form" → errors (validateForm formData) !! key = None)
  ∧ size (errors (validateForm formData)) = 1%nat.
Proof.
  intros Hnot.
  assert (validateForm formData
          = {| isValid := false; errors := {[ "form" := "Invalid form data" ]} |})
    as ->.
  { destruct formData as [| | | | | | |[] props]; try reflexivity.
    exfalso. apply Hnot. by repeat split. }
  cbn [errors]. split; [done|]. split.
  - intros key Hkey. by rewrite lookup_singleton_ne.
  - apply map_size_singleton.
Qed.

Lemma not_record_form_error_witness :
  let form_error :=
    {| isValid := false; errors := {[ "form" := "Invalid form data" ]} |} in
  validateForm VNull = form_error
  ∧ validateForm VUndefined = form_error
  ∧ validateForm (num 42) = form_error
  ∧ validateForm (str "name") = form_error
  ∧ validateForm (VBool true) = form_error
  ∧ validateForm (VObject ArrayExotic ∅) = form_error.
Proof.
  cbv zeta.
  repeat apply conj;
    apply not_record_form_error; intros (Hty & Hnull & Harr);
    done.
Defined.

(** ** name *)

Lemma name_invalid_false v : name_invalid v = false ↔ name_ok v.
Proof.
  unfold name_ok. destruct v; cbn [name_invalid];
    try (split; [done|by intros (? & ? & ?)]).
  rewrite orb_false_iff, Nat.ltb_ge, Nat.ltb_ge. split.
  - intros [? ?]. eexists. split; [done|lia].
  - intros (s' & [= <-] & ?). lia.
Qed.

(** C7: for every record, the errors object has the key [name] (with its
    message) exactly when the name field is not a string whose trimmed
    length lies in [2 .. 50]; trimmed lengths 2 and 50 pass, 1 and 51 do
    not. *)
Theorem name_error_iff (props : gmap string value) :
  let r := validateForm (VObject Ordinary props) in
  let name := Get (VObject Ordinary props) "name" in
  (errors r !! "name" = Some "Name must be 2-50 characters" ↔ ¬ name_ok name)
  ∧ (errors r !! "name" = None ↔ name_ok name)
  ∧ (∀ s, name = VStr s →
       length (JSString.trim s) = 2%nat ∨ length (JSString.trim s) = 50%nat →
       errors r !! "name" = None)
  ∧ (∀ s, name = VStr s →
       length (JSString.trim s) = 1%nat ∨ length (JSString.trim s) = 51%nat →
       errors r !! "name" = Some "Name must be 2-50 characters").
Proof.
  cbv zeta. rewrite errors_name.
  pose proof (if_invalid_iff _ "Name must be 2-50 characters" _
                (name_invalid_false (Get (VObject Ordinary props) "name")))
    as [Hsome Hnone].
  split; [done|]. split; [done|]. split.
  - intros s Hs Hlen. apply Hnone. exists s. split; [done|lia].
  - intros s Hs Hlen. apply Hsome. intros (s' & Hs' & ?).
    rewrite Hs in Hs'. injection Hs' as <-. lia.
Qed.

Lemma name_error_iff_witness :
  errors (validateForm (object [("name", str "  Om ")])) !! "name" = None
  ∧ errors (validateForm (object [("name", str " A ")])) !! "name"
    = Some "Name must be 2-50 characters".
Proof.
  split.
  - destruct (name_error_iff (list_to_map [("name", str "  Om ")]))
      as (_ & _ & Hin & _).
    apply (Hin (JSString.lit "  Om ")); [vm_compute; reflexivity|by left].
  - destruct (name_error_iff (list_to_map [("name", str " A ")]))
      as (_ & _ & _ & Hout).
    apply (Hout (JSString.lit " A ")); [vm_compute; reflexivity|by left].
Defined.

(** ** state *)

Lemma eqb_nil (s : jsstring) : JSString.eqb s (JSString.lit "") = false ↔ s ≠ [].
Proof.
  unfold JSString.eqb. change (JSString.lit "") with (@nil N).
  by rewrite bool_decide_eq_false.
Qed.

Lemma state_invalid_false props :
  state_invalid (Get (VObject Ordinary props) "state") = false
  ↔ state_ok (spec_effective_state (props !! "state")).
Proof.
  unfold state_ok, state_invalid. cbn [Get].
  destruct (props !! "state") as [v|]; cbn [default spec_effective_state].
  - destruct v; cbv beta iota delta [nullish_coalesce Datatypes.id];
      try (split; [done|by intros (? & ? & ?)]).
    + split; [done|]. by intros (s' & [= <-] & ?).
    + rewrite eqb_nil. split.
      * intros ?. by eexists.
      * by intros (s' & [= <-] & ?).
  - cbn. split; [done|]. by intros (s' & [= <-] & ?).
Qed.

(** C8: the effective state is the field's value when present and
    non-null and the empty string when absent or null; the errors object
    has the key [state] (with its message) exactly when that value is not
    a string with a non-empty trimmed form.  An absent and a [null] state
    give the error, ["MH"] does not. *)
Theorem state_error_iff (props : gmap string value) :
  let r := validateForm (VObject Ordinary props) in
  let state := spec_effective_state (props !! "state") in
  (errors r !! "state" = Some "State is required" ↔ ¬ state_ok state)
  ∧ (errors r !! "state" = None ↔ state_ok state)
  ∧ (props !! "state" = None → errors r !! "state" = Some "State is required")
  ∧ (props !! "state" = Some VNull →
     errors r !! "state" = Some "State is required")
  ∧ (props !! "state" = Some (str "MH") → errors r !! "state" = None).
Proof.
  cbv zeta. rewrite errors_state.
  pose proof (if_invalid_iff _ "State is required" _
                (state_invalid_false props)) as [Hsome Hnone].
  split; [done|]. split; [done|]. repeat split.
  - intros Hst. apply Hsome. rewrite Hst. by intros (s' & [= <-] & ?).
  - intros Hst. apply Hsome. rewrite Hst. by intros (s' & [= <-] & ?).
  - intros Hst. apply Hnone. rewrite Hst. by eexists.
Qed.

Lemma state_error_iff_witness :
  errors (validateForm (object [("name", str "Asha")])) !! "state"
  = Some "State is required"
  ∧ errors (validateForm (object [("state", VNull)])) !! "state"
    = Some "State is required"
  ∧ errors (validateForm (object [("state", str "MH")])) !! "state" = None.
Proof.
  split; [|split].
  - destruct (state_error_iff (list_to_map [("name", str "Asha")]))
      as (_ & _ & Habsent & _). apply Habsent. vm_compute. reflexivity.
  - destruct (state_error_iff (list_to_map [("state", VNull)]))
      as (_ & _ & _ & Hnull & _). apply Hnull. vm_compute. reflexivity.
  - destruct (state_error_iff (list_to_map [("state", str "MH")]))
      as (_ & _ & _ & _ & HMH). apply HMH. vm_compute. reflexivity.
Defined.

(** ** agreeTerms *)

Lemma ToBoolean_false v : ToBoolean v = false ↔ falsy v.
Proof.
  unfold falsy. destruct v as [| |b|x|z|s| |]; cbn [ToBoolean listed_falsy];
    try (split; [by left|done]);
    try (split; [done|by intros [[]|?]]).
  - split; [by left|]. by intros [?|?].
  - destruct x as [|neg|neg m e].
    + split; [by left|done].
    + split; [done|by intros [[]|?]].
    + rewrite negb_false_iff, N.eqb_eq. split; [by left|]. by intros [?|?].
  - rewrite negb_false_iff, Z.eqb_eq. split.
    + intros ->. by right.
    + by intros [[]|[= ->]].
  - destruct s; cbn; split; try done; try (by left). by intros [?|?].
Qed.

(** C9 as stated fails: [0n] is none of the six listed values, yet
    [Boolean(0n)] is [false] and the form is rejected. *)
Lemma agreeTerms_listed_falsy_counterexample :
  let o := VObject Ordinary form_agreeing_with_0n in
  Get o "agreeTerms" = VBigInt 0
  ∧ ¬ (errors (validateForm o) !! "agreeTerms" = Some "Must agree to terms"
       ↔ listed_falsy (Get o "agreeTerms")).
Proof.
  cbv zeta. split; [vm_compute; reflexivity|].
  intros [Hto _].
  assert (Get (VObject Ordinary form_agreeing_with_0n) "agreeTerms" = VBigInt 0)
    as Hget by (vm_compute; reflexivity).
  rewrite Hget in Hto. apply Hto. vm_compute. reflexivity.
Qed.

(** C9, amended: for every record, the errors object has the key
    [agreeTerms] (with its message) exactly when [Boolean] of the field is
    [false], that is for [0], [-0], [0n], [""], [null], [undefined], [NaN]
    and [false]; every other value, such as ["yes"] or a string of white
    space, is accepted. *)
Theorem agreeTerms_error_iff_falsy (props : gmap string value) :
  let r := validateForm (VObject Ordinary props) in
  let agreeTerms := Get (VObject Ordinary props) "agreeTerms" in
  (errors r !! "agreeTerms" = Some "Must agree to terms" ↔ falsy agreeTerms)
  ∧ (errors r !! "agreeTerms" = None ↔ ¬ falsy agreeTerms)
  ∧ (agreeTerms = str "yes" → errors r !! "agreeTerms" = None)
  ∧ (∀ s, s ≠ [] → agreeTerms = VStr s → errors r !! "agreeTerms" = None).
Proof.
  cbv zeta. rewrite errors_agreeTerms.
  assert (agreeTerms_invalid (Get (VObject Ordinary props) "agreeTerms") = true
          ↔ falsy (Get (VObject Ordinary props) "agreeTerms")) as Hiff.
  { unfold agreeTerms_invalid. by rewrite negb_true_iff, ToBoolean_false. }
  pose proof (if_invalid_iff' _ "Must agree to terms" _ Hiff) as [Hsome Hnone].
  split; [done|]. split; [done|]. split.
  - intros Hyes. apply Hnone. rewrite Hyes. by intros [?|?].
  - intros s Hs Hv. apply Hnone. rewrite Hv. by intros [?|?].
Qed.

Lemma agreeTerms_error_iff_falsy_witness :
  errors (validateForm (object [("agreeTerms", str "yes")])) !! "agreeTerms" = None
  ∧ errors (validateForm (object [("agreeTerms", str "   ")])) !! "agreeTerms"
    = None
  ∧ errors (validateForm (object [("agreeTerms", num 0)])) !! "agreeTerms"
    = Some "Must agree to terms".
Proof.
  split; [|split].
  - destruct (agreeTerms_error_iff_falsy
                (list_to_map [("agreeTerms", str "yes")])) as (_ & _ & Hyes & _).
    apply Hyes. vm_compute. reflexivity.
  - destruct (agreeTerms_error_iff_falsy
                (list_to_map [("agreeTerms", str "   ")])) as (_ & _ & _ & Hws).
    apply (Hws (JSString.lit "   ")); [done|vm_compute; reflexivity].
  - destruct (agreeTerms_error_iff_falsy
                (list_to_map [("agreeTerms", num 0)])) as (Hsome & _).
    apply Hsome. left. vm_compute. reflexivity.
Defined.

(** ** phone and pincode *)

Lemma forallb_is_digit s :
  forallb JSNumber.is_digit s = true ↔ all_ascii_digits s.
Proof.
  unfold all_ascii_digits. rewrite forallb_forall, Forall_forall.
  unfold JSNumber.is_digit. split; intros H c Hc.
  - apply list_elem_of_In, H in Hc.
    apply andb_true_iff in Hc as [?%N.leb_le ?%N.leb_le]. lia.
  - apply list_elem_of_In, H in Hc.
    apply andb_true_iff. split; apply N.leb_le; lia.
Qed.

Lemma includes_6789 c s :
  includes [JSString.lit "6"; JSString.lit "7"; JSString.lit "8"; JSString.lit "9"]
    (string_index (c :: s) 0) = true
  ↔ c = 54%N ∨ c = 55%N ∨ c = 56%N ∨ c = 57%N.
Proof.
  change (JSString.lit "6") with [54%N]. change (JSString.lit "7") with [55%N].
  change (JSString.lit "8") with [56%N]. change (JSString.lit "9") with [57%N].
  unfold string_index. cbn [lookup list_lookup includes existsb].
  unfold JSString.eqb. rewrite orb_false_r, !orb_true_iff, !bool_decide_eq_true.
  split.
  - intros [[= ->]|[[= ->]|[[= ->]|[= ->]]]]; tauto.
  - intros [->|[->|[->| ->]]]; tauto.
Qed.

Lemma phone_invalid_false v : phone_invalid v = false ↔ phone_ok v.
Proof.
  unfold phone_ok. destruct v as [| | | | |s| |]; cbn [phone_invalid];
    try (split; [done|by intros (? & ? & ?)]).
  rewrite !orb_false_iff, !negb_false_iff, Nat.eqb_eq, forallb_is_digit.
  split.
  - intros [[Hlen Hfirst] Hdigits]. exists s. repeat split; try done.
    destruct s as [|c s]; [done|]. exists c. split; [done|].
    by apply includes_6789 in Hfirst.
  - intros (s' & [= <-] & Hlen & Hdigits & c & Hhead & Hc).
    repeat split; try done. destruct s as [|c' s]; [done|].
    injection Hhead as ->. by apply includes_6789.
Qed.

(** C5: for every record, the errors object has the key [phone] (with its
    message) exactly when the phone field is not a string of exactly 10
    characters, all ASCII digits, the first one 6, 7, 8 or 9.
    ["9876543210"] passes; ["5876543210"] and ["98765432A0"] do not. *)
Theorem phone_error_iff (props : gmap string value) :
  let r := validateForm (VObject Ordinary props) in
  let phone := Get (VObject Ordinary props) "phone" in
  (errors r !! "phone" = Some "Invalid Indian phone number" ↔ ¬ phone_ok phone)
  ∧ (errors r !! "phone" = None ↔ phone_ok phone)
  ∧ (phone = str "9876543210" → errors r !! "phone" = None)
  ∧ (phone = str "5876543210" ∨ phone = str "98765432A0" →
     errors r !! "phone" = Some "Invalid Indian phone number").
Proof.
  cbv zeta. rewrite errors_phone.
  pose proof (if_invalid_iff _ "Invalid Indian phone number" _
                (phone_invalid_false (Get (VObject Ordinary props) "phone")))
    as [Hsome Hnone].
  split; [done|]. split; [done|]. split.
  - intros ->. reflexivity.
  - intros [-> | ->]; reflexivity.
Qed.

Lemma phone_error_iff_witness :
  errors (validateForm (object [("phone", str "9876543210")])) !! "phone" = None
  ∧ errors (validateForm (object [("phone", str "5876543210")])) !! "phone"
    = Some "Invalid Indian phone number"
  ∧ errors (validateForm (object [("phone", str "98765432A0")])) !! "phone"
    = Some "Invalid Indian phone number".
Proof.
  split; [|split].
  - destruct (phone_error_iff (list_to_map [("phone", str "9876543210")]))
      as (_ & _ & Hgood & _). apply Hgood. vm_compute. reflexivity.
  - destruct (phone_error_iff (list_to_map [("phone", str "5876543210")]))
      as (_ & _ & _ & Hbad). apply Hbad. left. vm_compute. reflexivity.
  - destruct (phone_error_iff (list_to_map [("phone", str "98765432A0")]))
      as (_ & _ & _ & Hbad). apply Hbad. right. vm_compute. reflexivity.
Defined.

Lemma startsWith_zero s :
  JSString.startsWith s (JSString.lit "0") = true ↔ head s = Some 48%N.
Proof.
  change (JSString.lit "0") with [48%N].
  destruct s as [|c s]; cbn [JSString.startsWith head]; [done|].
  destruct s; rewrite andb_true_r, N.eqb_eq; (split; [by intros <-|by intros [= ->]]).
Qed.

Lemma pincode_invalid_false v : pincode_invalid v = false ↔ pincode_ok v.
Proof.
  unfold pincode_ok. destruct v as [| | | | |s| |]; cbn [pincode_invalid];
    try (split; [done|by intros (? & ? & ?)]).
  rewrite !orb_false_iff, !negb_false_iff, Nat.eqb_eq, forallb_is_digit.
  rewrite <-not_true_iff_false, startsWith_zero.
  split.
  - intros [[Hlen Hfirst] Hdigits]. by exists s.
  - by intros (s' & [= <-] & Hlen & Hdigits & Hhead).
Qed.

(** C6: for every record, the errors object has the key [pincode] (with
    its message) exactly when the pincode field is not a string of exactly
    6 ASCII digits whose first character is not ["0"].  ["000000"] and
    ["12345"] fail, ["100000"] passes. *)
Theorem pincode_error_iff (props : gmap string value) :
  let r := validateForm (VObject Ordinary props) in
  let pincode := Get (VObject Ordinary props) "pincode" in
  (errors r !! "pincode" = Some "Invalid Indian pincode" ↔ ¬ pincode_ok pincode)
  ∧ (errors r !! "pincode" = None ↔ pincode_ok pincode)
  ∧ (pincode = str "000000" ∨ pincode = str "12345" →
     errors r !! "pincode" = Some "Invalid Indian pincode")
  ∧ (pincode = str "100000" → errors r !! "pincode" = None).
Proof.
  cbv zeta. rewrite errors_pincode.
  pose proof (if_invalid_iff _ "Invalid Indian pincode" _
                (pincode_invalid_false (Get (VObject Ordinary props) "pincode")))
    as [Hsome Hnone].
  split; [done|]. split; [done|]. split.
  - intros [-> | ->]; reflexivity.
  - intros ->. reflexivity.
Qed.

Lemma pincode_error_iff_witness :
  errors (validateForm (object [("pincode", str "000000")])) !! "pincode"
  = Some "Invalid Indian pincode"
  ∧ errors (validateForm (object [("pincode", str "12345")])) !! "pincode"
    = Some "Invalid Indian pincode"
  ∧ errors (validateForm (object [("pincode", str "100000")])) !! "pincode"
    = None.
Proof.
  split; [|split].
  - destruct (pincode_error_iff (list_to_map [("pincode", str "000000")]))
      as (_ & _ & Hbad & _). apply Hbad. left. vm_compute. reflexivity.
  - destruct (pincode_error_iff (list_to_map [("pincode", str "12345")]))
      as (_ & _ & Hbad & _). apply Hbad. right. vm_compute. reflexivity.
  - destruct (pincode_error_iff (list_to_map [("pincode", str "100000")]))
      as (_ & _ & _ & Hgood). apply Hgood. vm_compute. reflexivity.
Defined.

(** ** email *)

Lemma startsWith_unit c s :
  JSString.startsWith s [c] = match s with x :: _ => (c =? x)%N | [] => false end.
Proof. destruct s as [|x [|y s]]; cbn; by rewrite ?andb_true_r. Qed.

Lemma index_from_unit c s k :
  JSString.index_from [c] s k
  = match first_occ c s with Some i => k + Z.of_nat i | None => -1 end.
Proof.
  revert k. induction s as [|x s IH]; intros k; [done|].
  cbn [JSString.index_from first_occ]. rewrite startsWith_unit.
  destruct (c =? x)%N; [lia|]. rewrite IH.
  destruct (first_occ c s); cbn; lia.
Qed.

Lemma last_index_from_unit c s k found :
  JSString.last_index_from [c] s k found
  = match last_occ c s with Some i => k + Z.of_nat i | None => found end.
Proof.
  revert k found. induction s as [|x s IH]; intros k found; [done|].
  cbn [JSString.last_index_from last_occ]. rewrite startsWith_unit, IH.
  destruct (last_occ c s); [lia|]. destruct (c =? x)%N; lia.
Qed.

Lemma first_occ_Some c s i :
  first_occ c s = Some i →
  s !! i = Some c ∧ ∀ j, (j < i)%nat → s !! j ≠ Some c.
Proof.
  revert i. induction s as [|x s IH]; intros i; [done|].
  cbn [first_occ]. destruct (N.eqb_spec c x) as [->|Hne].
  - intros [= <-]. split; [done|]. lia.
  - destruct (first_occ c s) as [i'|]; [|done].
    intros [= <-]. destruct (IH i' eq_refl) as [Hi Hlt]. split; [done|].
    intros [|j] Hj; cbn; [congruence|]. apply Hlt. lia.
Qed.

Lemma first_occ_None c s : first_occ c s = None ↔ ∀ j, s !! j ≠ Some c.
Proof.
  induction s as [|x s IH]; [done|].
  cbn [first_occ]. destruct (N.eqb_spec c x) as [->|Hne].
  - split; [done|]. intros H. by specialize (H 0%nat).
  - destruct (first_occ c s) as [i'|]; cbn.
    + split; [done|]. intros H. exfalso.
      assert (Some i' = None) as Habs; [|done].
      apply IH. intros j. apply (H (S j)).
    + split; [|done]. intros _ [|j]; cbn; [congruence|]. by apply IH.
Qed.

Lemma occurrences_0 c s : occurrences c s = 0%nat ↔ first_occ c s = None.
Proof.
  induction s as [|x s IH]; [done|].
  cbn [occurrences first_occ]. destruct (c =? x)%N; [done|].
  rewrite IH. by destruct (first_occ c s).
Qed.

Lemma last_occ_None c s : last_occ c s = None ↔ first_occ c s = None.
Proof.
  induction s as [|x s IH]; [done|].
  cbn [last_occ first_occ]. destruct (c =? x)%N.
  - by destruct (last_occ c s).
  - destruct (last_occ c s), (first_occ c s); cbn; try done.
    + destruct IH as [_ IH]. discriminate (IH eq_refl).
    + destruct IH as [IH _]. discriminate (IH eq_refl).
Qed.

(** Exactly one occurrence: the first and the last coincide. *)
Lemma occurrences_1 c s :
  occurrences c s = 1%nat
  ↔ ∃ i, first_occ c s = Some i ∧ last_occ c s = Some i.
Proof.
  induction s as [|x s IH]; [by split; [|intros (? & ? & ?)]|].
  cbn [occurrences first_occ last_occ]. destruct (c =? x)%N.
  - split.
    + intros [= H0]. apply occurrences_0 in H0.
      apply last_occ_None in H0 as ->. by exists 0%nat.
    + intros (i & [= <-] & Hlast). f_equal. apply occurrences_0.
      apply last_occ_None. by destruct (last_occ c s).
  - rewrite IH. split.
    + intros (i & -> & ->). by exists (S i).
    + intros (i & Hfirst & Hlast).
      destruct (first_occ c s) as [i1|]; [|done].
      destruct (last_occ c s) as [i2|]; [|done].
      cbn in Hfirst. exists i1. split; [done|]. congruence.
Qed.

Lemma first_occ_lt c s i : first_occ c s = Some i → (i < length s)%nat.
Proof. intros [Hi _]%first_occ_Some. by apply lookup_lt_Some in Hi. Qed.

(** [s.indexOf(c)] finds nothing exactly when [c] does not occur. *)
Lemma indexOf_unit_0 c s :
  JSString.indexOf s [c] 0
  = match first_occ c s with Some i => Z.of_nat i | None => -1 end.
Proof.
  unfold JSString.indexOf.
  replace (Z.min (Z.max 0 0) (Z.of_nat (length s))) with 0 by lia.
  change (drop (Z.to_nat 0) s) with s. rewrite index_from_unit.
  destruct (first_occ c s); lia.
Qed.

Lemma lastIndexOf_unit c s :
  JSString.lastIndexOf s [c]
  = match last_occ c s with Some i => Z.of_nat i | None => -1 end.
Proof.
  unfold JSString.lastIndexOf. rewrite last_index_from_unit.
  destruct (last_occ c s); lia.
Qed.

(** [s.indexOf(c, i + 1)] finds something exactly when [c] occurs at a
    position after [i]. *)
Lemma indexOf_unit_after c s (i : nat) :
  (i < length s)%nat →
  JSString.indexOf s [c] (Z.of_nat i + 1) ≠ -1
  ↔ ∃ j, (i < j)%nat ∧ s !! j = Some c.
Proof.
  intros Hi. unfold JSString.indexOf.
  replace (Z.min (Z.max (Z.of_nat i + 1) 0) (Z.of_nat (length s)))
    with (Z.of_nat (S i)) by lia.
  rewrite Nat2Z.id, index_from_unit.
  destruct (first_occ c (drop (S i) s)) as [j|] eqn:Hocc.
  - split; [|lia]. intros _.
    apply first_occ_Some in Hocc as [Hj _]. rewrite lookup_drop in Hj.
    exists (S i + j)%nat. split; [lia|done].
  - split; [done|]. intros (j & Hij & Hj). exfalso.
    pose proof (proj1 (first_occ_None _ _) Hocc (j - S i)%nat) as Hnone.
    apply Hnone. rewrite lookup_drop.
    by replace (S i + (j - S i))%nat with j by lia.
Qed.

Lemma email_invalid_false v : email_invalid v = false ↔ email_ok v.
Proof.
  unfold email_ok. destruct v as [| | | | |s| |]; cbn [email_invalid];
    try (split; [done|by intros (? & ? & ?)]).
  change (JSString.lit "@") with [64%N]. change (JSString.lit ".") with [46%N].
  cbv zeta. rewrite indexOf_unit_0, lastIndexOf_unit.
  destruct (first_occ 64 s) as [i|] eqn:Hfirst.
  - destruct (last_occ 64 s) as [l|] eqn:Hlast.
    + destruct (decide (i = l)) as [<-|Hne].
      * replace (Z.of_nat i =? -1) with false by (symmetry; apply Z.eqb_neq; lia).
        rewrite Z.eqb_refl. cbn [negb orb]. rewrite Z.eqb_neq.
        rewrite (indexOf_unit_after 46 s i) by (by eapply first_occ_lt).
        pose proof (first_occ_Some _ _ _ Hfirst) as [Hat Hbefore].
        split.
        -- intros (j & Hij & Hj). exists s. split; [done|]. split.
           ++ apply occurrences_1. exists i. by rewrite Hfirst, Hlast.
           ++ by exists i, j.
        -- intros (s' & [= <-] & _ & i' & j & Hi' & Hj & Hij).
           exists j. split; [|done].
           destruct (decide (i' < i)%nat) as [Hlt|?]; [|lia].
           by apply Hbefore in Hlt.
      * replace (Z.of_nat i =? Z.of_nat l) with false
          by (symmetry; apply Z.eqb_neq; lia).
        rewrite orb_true_r. cbn [orb]. split; [done|].
        intros (s' & [= <-] & (i0 & Hf & Hl)%occurrences_1 & _). congruence.
    + apply last_occ_None in Hlast. congruence.
  - cbn. split; [done|].
    intros (s' & [= <-] & (i0 & Hf & Hl)%occurrences_1 & _). congruence.
Qed.

(** C4: for every record, the errors object has the key [email] (with its
    message) exactly when the email field is not a string with exactly one
    ["@"] and at least one ["."] strictly after it. *)
Theorem email_error_iff (props : gmap string value) :
  let r := validateForm (VObject Ordinary props) in
  let email := Get (VObject Ordinary props) "email" in
  (errors r !! "email" = Some "Invalid email format" ↔ ¬ email_ok email)
  ∧ (errors r !! "email" = None ↔ email_ok email).
Proof.
  cbv zeta. rewrite errors_email.
  exact (if_invalid_iff _ "Invalid email format" _
           (email_invalid_false (Get (VObject Ordinary props) "email"))).
Qed.

(** The rule on the addresses of the specification's two examples, and on
    addresses with two ["@"], with the dot only before the ["@"], and with
    the dot right after it. *)
Example email_examples :
  let email_error (s : string) :=
    errors (validateForm (object [("email", str s)])) !! "email" in
  email_error "rahul@gmail.com" = None
  ∧ email_error "a@.b" = None
  ∧ email_error "bad-email" = Some "Invalid email format"
  ∧ email_error "a@b@c.d" = Some "Invalid email format"
  ∧ email_error "first.last@host" = Some "Invalid email format"
  ∧ email_error "@." = None.
Proof. cbv zeta. repeat split; vm_compute; reflexivity. Qed.

(** ** age *)

Lemma number_invalid_false x : number_invalid x = false ↔ integer_16_100 x.
Proof.
  unfold integer_16_100, number_invalid.
  destruct x as [|neg|neg m e]; cbn [JSNumber.isInteger negb orb denotes_integer];
    try (split; [done|by intros (? & ? & ?)]).
  unfold JSNumber.gt. change (JSNumber.of_Z 16) with (Finite false 16 0).
  change (JSNumber.of_Z 100) with (Finite false 100 0).
  cbn [JSNumber.lt]. unfold JSNumber.compare_finite.
  change (JSNumber.signed false 16) with 16.
  change (JSNumber.signed false 100) with 100.
  set (sm := JSNumber.signed neg m).
  assert (Z.abs sm = Z.of_N m) as Habs by (unfold sm; destruct neg; cbn; lia).
  rewrite !orb_false_iff, negb_false_iff, orb_true_iff, Z.leb_le, Z.eqb_eq.
  destruct (Z.le_gt_cases 0 e) as [He|He].
  - rewrite (Z.min_r e 0), (Z.min_l 0 e), (Z.max_l e 0), (Z.max_r (- e) 0),
      !Z.sub_0_r, Z.pow_0_r, !Z.mul_1_r by lia.
    destruct (Z.compare_spec (sm * 2 ^ e) 16), (Z.compare_spec 100 (sm * 2 ^ e));
      (split;
       [ intros [[_ ?] ?]; try done; exists (sm * 2 ^ e); lia
       | intros (k & ? & ?); repeat split; auto; try done; lia ]).
  - assert (0 < 2 ^ (- e)) as Hpos by (apply Z.pow_pos_nonneg; lia).
    rewrite (Z.min_l e 0), (Z.min_r 0 e), (Z.max_r e 0), (Z.max_l (- e) 0)
      by lia.
    replace (0 - e) with (- e) by lia.
    rewrite Z.sub_diag, Z.pow_0_r, !Z.mul_1_r.
    split.
    + intros [[[?|Hmod] Hlow] Hhigh]; [lia|].
      apply Z.mod_divide in Hmod; [|lia]. destruct Hmod as [q Hq].
      assert (sm = (if neg then - q else q) * 2 ^ (- e)) as Hsm.
      { unfold sm, JSNumber.signed. destruct neg; lia. }
      exists (if neg then - q else q). split; [|done].
      destruct (Z.compare_spec sm (16 * 2 ^ (- e))); try done;
        destruct (Z.compare_spec (100 * 2 ^ (- e)) sm); try done; nia.
    + intros (k & Hk & Hsm). repeat split.
      * right. rewrite <-Habs, Hsm, Z.abs_mul, (Z.abs_eq (2 ^ (- e))) by lia.
        apply Z.mod_mul. lia.
      * destruct (Z.compare_spec sm (16 * 2 ^ (- e))); try done; nia.
      * destruct (Z.compare_spec (100 * 2 ^ (- e)) sm); try done; nia.
Qed.

(** The string built-ins on small inputs. *)
Example string_builtins_examples :
  let s := JSString.lit in
  JSString.trim (s "  a b  ") = s "a b"
  ∧ JSString.trim (9 :: 160 :: 8232 :: 65279 :: s "x")%N = s "x"
  ∧ JSString.indexOf (s "a@b@c") (s "@") 0 = 1
  ∧ JSString.lastIndexOf (s "a@b@c") (s "@") = 3
  ∧ JSString.indexOf (s "a.b@c") (s ".") 2 = -1
  ∧ JSString.indexOf (s "abc") (s "") 10 = 3
  ∧ JSString.lastIndexOf (s "abc") (s "zz") = -1
  ∧ JSString.startsWith (s "0123") (s "0") = true
  ∧ JSString.lt (s "/") (s "0") = true
  ∧ JSString.lt (s "9") (s ":") = true
  ∧ JSString.lt (s "10") (s "9") = true.
Proof. cbv zeta. repeat apply conj; vm_compute; reflexivity. Qed.

(** [Number] on some strings: integers, fractions, exponents, radix
    prefixes, the largest finite value and the first that overflows, the
    smallest subnormal, a tie rounded to even, and strings that are not
    literals. *)
Example StringToNumber_examples :
  let Number (s : string) := JSNumber.StringToNumber (JSString.lit s) in
  Number "22" = Finite false (22 * 2 ^ 48) (-48)
  ∧ Number "1e2" = Finite false (100 * 2 ^ 46) (-46)
  ∧ Number "0x16" = Number "22"
  ∧ Number "0.1" = Finite false 7205759403792794 (-56)
  ∧ Number "-0" = Finite true 0 0
  ∧ Number "" = Finite false 0 0
  ∧ Number "1.7976931348623157e308" = Finite false (2 ^ 53 - 1) 971
  ∧ Number "1.7976931348623159e308" = Infinity false
  ∧ Number "5e-324" = Finite false 1 (-1074)
  ∧ Number "9007199254740993" = Finite false (2 ^ 52) 1
  ∧ Number "-Infinity" = Infinity true
  ∧ Number "22abc" = NaN
  ∧ Number "1_000" = NaN
  ∧ Number "-0x16" = NaN
  ∧ Number "." = NaN.
Proof. cbv zeta. repeat apply conj; vm_compute; reflexivity. Qed.

(** *** White space and [trim] *)

Lemma trimStart_ws w s :
  all_white_space w → JSString.trimStart (w ++ s) = JSString.trimStart s.
Proof. induction 1 as [|c w Hc _ IH]; [done|]. cbn. by rewrite Hc. Qed.

Lemma trimEnd_ws w : all_white_space w → JSString.trimEnd w = [].
Proof. induction 1 as [|c w Hc _ IH]; [done|]. cbn. by rewrite IH, Hc. Qed.

Lemma trimEnd_app_ws s w :
  all_white_space w → JSString.trimEnd (s ++ w) = JSString.trimEnd s.
Proof.
  intros Hw. induction s as [|c s IH]; cbn; [by apply trimEnd_ws|].
  by rewrite IH.
Qed.

Lemma trimEnd_no_ws s :
  Forall (λ c, JSString.is_white_space c = false) s → JSString.trimEnd s = s.
Proof.
  induction 1 as [|c s Hc _ IH]; [done|]. cbn. rewrite IH, Hc. by destruct s.
Qed.

Lemma trimEnd_cons_no_ws c t :
  JSString.is_white_space c = false → ∃ t', JSString.trimEnd (c :: t) = c :: t'.
Proof.
  intros Hc. cbn. rewrite Hc. destruct (JSString.trimEnd t); by eexists.
Qed.

Lemma trimEnd_app a b :
  JSString.trimEnd b ≠ [] → JSString.trimEnd (a ++ b) = a ++ JSString.trimEnd b.
Proof.
  intros Hb. induction a as [|c a IH]; [done|]. cbn. rewrite IH.
  destruct (a ++ JSString.trimEnd b) eqn:Heq; [|done].
  by apply app_eq_nil in Heq as [_ ?].
Qed.

Lemma trim_ws s : all_white_space s → JSString.trim s = [].
Proof.
  intros Hs. unfold JSString.trim.
  rewrite <-(app_nil_r s), trimStart_ws by done. reflexivity.
Qed.

(** *** Decimal numerals *)

Lemma is_digit_range c : JSNumber.is_digit c = true ↔ (48 ≤ c ≤ 57)%N.
Proof.
  unfold JSNumber.is_digit. rewrite andb_true_iff, !N.leb_le. done.
Qed.

Lemma all_ascii_digits_all_digits d : all_ascii_digits d ↔ all_digits d.
Proof.
  unfold all_ascii_digits, all_digits. apply Forall_iff. intros c.
  by rewrite is_digit_range.
Qed.

Lemma digit_neq c n :
  JSNumber.is_digit c = true → (n < 48 ∨ 57 < n)%N → (c =? n)%N = false.
Proof. intros ?%is_digit_range ?. apply N.eqb_neq. lia. Qed.

Lemma is_digit_not_ws c :
  JSNumber.is_digit c = true → JSString.is_white_space c = false.
Proof.
  intros Hc. unfold JSString.is_white_space.
  rewrite !(digit_neq c) by (done || lia).
  apply is_digit_range in Hc.
  replace (8192 <=? c)%N with false by (symmetry; apply N.leb_gt; lia).
  reflexivity.
Qed.

Lemma all_digits_no_ws d :
  all_digits d → Forall (λ c, JSString.is_white_space c = false) d.
Proof. intros Hd. eapply Forall_impl; [done|]. intros c. apply is_digit_not_ws. Qed.

Lemma span_digits_app d r :
  all_digits d →
  match r with [] => True | c :: _ => JSNumber.is_digit c = false end →
  JSNumber.span_digits (d ++ r) = (d, r).
Proof.
  intros Hd Hr. induction Hd as [|c d Hc _ IH]; cbn.
  - destruct r as [|c r]; [done|]. cbn. by rewrite Hr.
  - by rewrite Hc, IH.
Qed.

Lemma radix_prefix_digits c0 r :
  JSNumber.is_digit c0 = true →
  match r with [] => True | c :: _ => numeral_char c = false
                                      ∨ JSNumber.is_digit c = true end →
  JSNumber.radix_prefix (c0 :: r) = None.
Proof.
  intros H0 Hr. destruct r as [|c1 r]; [done|]. cbn [JSNumber.radix_prefix].
  destruct (c0 =? 48)%N; [|done].
  destruct Hr as [Hc1|Hc1].
  - unfold numeral_char in Hc1. rewrite !orb_false_iff in Hc1.
    destruct Hc1 as (_ & (((((((_ & _) & _) & -> ) & ->) & ->) & ->) & ->) & ->).
    reflexivity.
  - by rewrite !(digit_neq c1) by (done || lia).
Qed.

Lemma split_sign_digit c0 r :
  JSNumber.is_digit c0 = true →
  JSNumber.split_sign (c0 :: r) = (false, c0 :: r).
Proof.
  intros H0. cbn [JSNumber.split_sign].
  by rewrite !(digit_neq c0) by (done || lia).
Qed.

Lemma not_Infinity_digit c0 r :
  JSNumber.is_digit c0 = true →
  JSString.eqb (c0 :: r) (JSString.lit "Infinity") = false.
Proof.
  intros H0%is_digit_range. unfold JSString.eqb.
  apply bool_decide_eq_false. intros Heq.
  assert (c0 = 73%N) by (by injection Heq). lia.
Qed.

(** A run of decimal digits is read whole, as the integer it writes. *)
Lemma StrNumericLiteral_digits d :
  d ≠ [] → all_digits d →
  JSNumber.StrNumericLiteral d
  = JSNumber.to_binary64 false (JSNumber.digits_value 10 d 0) 1.
Proof.
  intros Hne Hd. destruct d as [|c0 d]; [done|].
  pose proof (Forall_inv Hd) as H0. cbn beta in H0.
  unfold JSNumber.StrNumericLiteral. rewrite radix_prefix_digits; [|done|].
  2:{ destruct d as [|c1 d]; [done|]. right.
      apply (Forall_inv (Forall_inv_tail Hd)). }
  unfold JSNumber.StrDecimalLiteral.
  rewrite split_sign_digit, not_Infinity_digit by done.
  unfold JSNumber.parse_decimal.
  rewrite <-(app_nil_r (c0 :: d)) at 1. rewrite span_digits_app by done.
  cbn [JSNumber.nonempty orb JSNumber.parse_exponent length Z.of_nat].
  rewrite app_nil_r. cbn [Z.sub Z.opp Z.add Z.leb Z.compare].
  by rewrite Z.pow_0_r, Z.mul_1_r.
Qed.

(** Digits followed by a character that cannot continue a numeral are not
    a numeric literal, whatever comes next. *)
Lemma StrNumericLiteral_junk d c t :
  d ≠ [] → all_digits d → numeral_char c = false →
  JSNumber.StrNumericLiteral (d ++ c :: t) = NaN.
Proof.
  intros Hne Hd Hc. destruct d as [|c0 d]; [done|].
  pose proof (Forall_inv Hd) as H0. cbn beta in H0.
  assert (JSNumber.is_digit c = false) as Hcd.
  { unfold numeral_char in Hc. by apply orb_false_iff in Hc as [? _]. }
  unfold JSNumber.StrNumericLiteral.
  rewrite <-app_comm_cons, radix_prefix_digits; [|done|].
  2:{ destruct d as [|c1 d]; [by left|]. right.
      apply (Forall_inv (Forall_inv_tail Hd)). }
  unfold JSNumber.StrDecimalLiteral.
  rewrite split_sign_digit, not_Infinity_digit by done.
  unfold JSNumber.parse_decimal.
  rewrite app_comm_cons, span_digits_app by done.
  unfold numeral_char in Hc. rewrite Hcd, !orb_false_iff in Hc.
  destruct Hc as (_ & (((((((( -> & He) & HE) & _ ) & _) & _) & _) & _) & _)).
  cbn [JSNumber.nonempty orb JSNumber.parse_exponent]. by rewrite He, HE.
Qed.

Lemma to_binary64_16_100 k :
  16 ≤ k ≤ 100 →
  ∃ neg m e, JSNumber.to_binary64 false k 1 = Finite neg m e
             ∧ number_invalid (Finite neg m e) = false
             ∧ denotes_integer (Finite neg m e) k.
Proof.
  intros Hk.
  assert (forallb exact_in_range (seqZ 16 85) = true) as Hall
    by (vm_compute; reflexivity).
  rewrite forallb_forall in Hall.
  assert (exact_in_range k = true) as Hexact.
  { apply Hall, list_elem_of_In, elem_of_seqZ. lia. }
  unfold exact_in_range in Hexact.
  destruct (JSNumber.to_binary64 false k 1) as [|neg|neg m e]; try done.
  apply andb_true_iff in Hexact as [Hvalid Hval].
  exists neg, m, e. split; [done|]. split.
  - by apply negb_true_iff.
  - by apply Z.eqb_eq.
Qed.

Lemma StringToNumber_blank s :
  JSString.trim s = [] → JSNumber.StringToNumber s = Finite false 0 0.
Proof. unfold JSNumber.StringToNumber. by intros ->. Qed.

Lemma StringToNumber_literal s :
  JSString.trim s ≠ [] →
  JSNumber.StringToNumber s = JSNumber.StrNumericLiteral (JSString.trim s).
Proof. unfold JSNumber.StringToNumber. by destruct (JSString.trim s). Qed.

Lemma zero_not_16_100 : ¬ integer_16_100 (Finite false 0 0).
Proof. intros (k & Hk & Hval). cbn in Hval. lia. Qed.

Lemma isNaN_false x : JSNumber.isNaN x = false ↔ x ≠ NaN.
Proof. by destruct x. Qed.

Lemma age_invalid_false v : age_invalid v = false ↔ age_ok v.
Proof.
  destruct v as [| | |x| |s| |]; cbn [age_invalid age_ok]; try done.
  - apply number_invalid_false.
  - rewrite !orb_false_iff, eqb_nil, isNaN_false, number_invalid_false.
    split; [tauto|]. intros [Hnan Hok]. repeat split; try done.
    intros Hblank. apply StringToNumber_blank in Hblank.
    rewrite Hblank in Hok. by apply zero_not_16_100.
Qed.

(** C3: for every record, the errors object has the key [age] (with its
    message) exactly when the age field is not a number, or a string
    representing a number, that converts to a finite integer in
    [16 .. 100].  Empty and white-space strings fail, values that are
    neither strings nor numbers fail, 16, 100, ["16"], ["100"] and ["22"]
    pass, 15 and 101 fail. *)
Theorem age_error_iff (props : gmap string value) :
  let r := validateForm (VObject Ordinary props) in
  let age := Get (VObject Ordinary props) "age" in
  let age_error := Some "Age must be an integer between 16 and 100" in
  (errors r !! "age" = age_error ↔ ¬ age_ok age)
  ∧ (errors r !! "age" = None ↔ age_ok age)
  ∧ (∀ s, all_white_space s → age = VStr s → errors r !! "age" = age_error)
  ∧ (typeof age ≠ "string" → typeof age ≠ "number" →
     errors r !! "age" = age_error)
  ∧ (age = num 16 ∨ age = num 100 ∨ age = str "16" ∨ age = str "100"
     ∨ age = str "22" → errors r !! "age" = None)
  ∧ (age = num 15 ∨ age = num 101 ∨ age = str "15" ∨ age = str "101" →
     errors r !! "age" = age_error).
Proof.
  cbv zeta. rewrite errors_age.
  pose proof (if_invalid_iff _ "Age must be an integer between 16 and 100" _
                (age_invalid_false (Get (VObject Ordinary props) "age")))
    as [Hsome Hnone].
  split; [done|]. split; [done|]. repeat split.
  - intros s Hs ->. cbn [age_invalid]. by rewrite (trim_ws s Hs).
  - intros Hstr Hnum. by destruct (Get _ "age").
  - intros [->|[->|[->|[->| ->]]]]; vm_compute; reflexivity.
  - intros [->|[->|[->| ->]]]; vm_compute; reflexivity.
Qed.

Lemma age_error_iff_witness :
  let age_error (v : value) :=
    errors (validateForm (object [("age", v)])) !! "age" in
  age_error (str "  ") = Some "Age must be an integer between 16 and 100"
  ∧ age_error (VBool true) = Some "Age must be an integer between 16 and 100"
  ∧ age_error (num 16) = None
  ∧ age_error (str "100") = None
  ∧ age_error (num 101) = Some "Age must be an integer between 16 and 100"
  ∧ age_error (str "15") = Some "Age must be an integer between 16 and 100".
Proof.
  cbv zeta. repeat apply conj.
  - destruct (age_error_iff (list_to_map [("age", str "  ")]))
      as (_ & _ & Hblank & _).
    apply (Hblank (JSString.lit "  ")); [|vm_compute; reflexivity].
    by repeat constructor.
  - destruct (age_error_iff (list_to_map [("age", VBool true)]))
      as (_ & _ & _ & Hother & _).
    apply Hother; vm_compute; discriminate.
  - destruct (age_error_iff (list_to_map [("age", num 16)]))
      as (_ & _ & _ & _ & Hin & _).
    apply Hin. left. vm_compute. reflexivity.
  - destruct (age_error_iff (list_to_map [("age", str "100")]))
      as (_ & _ & _ & _ & Hin & _).
    apply Hin. do 3 right. left. vm_compute. reflexivity.
  - destruct (age_error_iff (list_to_map [("age", num 101)]))
      as (_ & _ & _ & _ & _ & Hout).
    apply Hout. right. left. vm_compute. reflexivity.
  - destruct (age_error_iff (list_to_map [("age", str "15")]))
      as (_ & _ & _ & _ & _ & Hout).
    apply Hout. do 2 right. left. vm_compute. reflexivity.
Defined.

(** ** age given as a string: the whole string is parsed *)

Lemma trim_padded_digits w1 d w2 :
  all_white_space w1 → all_white_space w2 → all_digits d →
  JSString.trim (w1 ++ d ++ w2) = d.
Proof.
  intros Hw1 Hw2 Hd. unfold JSString.trim. rewrite trimStart_ws by done.
  destruct d as [|c0 d].
  { cbn [app]. rewrite <-(app_nil_r w2), trimStart_ws by done. done. }
  pose proof (Forall_inv Hd) as H0. cbn beta in H0.
  cbn [app JSString.trimStart]. rewrite (is_digit_not_ws c0) by done.
  change (c0 :: d ++ w2) with ((c0 :: d) ++ w2).
  rewrite trimEnd_app_ws by done. by apply trimEnd_no_ws, all_digits_no_ws.
Qed.

Lemma trim_digits_junk w1 d c t :
  all_white_space w1 → d ≠ [] → all_digits d →
  JSString.is_white_space c = false →
  ∃ t', JSString.trim (w1 ++ d ++ c :: t) = d ++ c :: t'.
Proof.
  intros Hw1 Hne Hd Hc. destruct (trimEnd_cons_no_ws c t Hc) as [t' Ht'].
  exists t'. unfold JSString.trim. rewrite trimStart_ws by done.
  destruct d as [|c0 d]; [done|].
  pose proof (Forall_inv Hd) as H0. cbn beta in H0.
  cbn [app JSString.trimStart]. rewrite (is_digit_not_ws c0) by done.
  change (c0 :: d ++ c :: t) with ((c0 :: d) ++ c :: t).
  rewrite trimEnd_app by (by rewrite Ht'). by rewrite Ht'.
Qed.

(** [Number] of an integer numeral with white space around it is the
    rounded value of the numeral. *)
Lemma StringToNumber_padded_digits w1 d w2 :
  all_white_space w1 → all_white_space w2 → d ≠ [] → all_digits d →
  JSNumber.StringToNumber (w1 ++ d ++ w2)
  = JSNumber.to_binary64 false (JSNumber.digits_value 10 d 0) 1.
Proof.
  intros Hw1 Hw2 Hne Hd.
  rewrite StringToNumber_literal; rewrite trim_padded_digits by done; [|done].
  by apply StrNumericLiteral_digits.
Qed.

(** [Number] of digits followed by a character that cannot continue a
    numeral is [NaN]. *)
Lemma StringToNumber_digits_junk w1 d c t :
  all_white_space w1 → d ≠ [] → all_digits d →
  numeral_char c = false → JSString.is_white_space c = false →
  JSNumber.StringToNumber (w1 ++ d ++ c :: t) = NaN.
Proof.
  intros Hw1 Hne Hd Hc Hcws.
  destruct (trim_digits_junk w1 d c t) as [t' Htrim]; try done.
  rewrite StringToNumber_literal; rewrite Htrim; [|by destruct d].
  by apply StrNumericLiteral_junk.
Qed.

(** C10: when the age is a string that is not empty after trimming, it is
    accepted exactly when the whole trimmed string is a numeric literal
    whose value is an integer in [16 .. 100].  White space around an
    integer numeral in that range is accepted ([" 22 "]); digits followed
    by a character that cannot continue a numeral are rejected
    (["22abc"]). *)
Theorem age_string_whole_parse (props : gmap string value) :
  let r := validateForm (VObject Ordinary props) in
  let age := Get (VObject Ordinary props) "age" in
  let age_error := Some "Age must be an integer between 16 and 100" in
  (∀ s, age = VStr s → JSString.trim s ≠ [] →
     (errors r !! "age" = None
      ↔ integer_16_100 (JSNumber.StrNumericLiteral (JSString.trim s)))
     ∧ (errors r !! "age" = age_error
        ↔ ¬ integer_16_100 (JSNumber.StrNumericLiteral (JSString.trim s))))
  ∧ (∀ w1 d w2,
       all_white_space w1 → all_white_space w2 →
       d ≠ [] → all_ascii_digits d →
       16 ≤ JSNumber.digits_value 10 d 0 ≤ 100 →
       age = VStr (w1 ++ d ++ w2) → errors r !! "age" = None)
  ∧ (∀ w1 d c t,
       all_white_space w1 → d ≠ [] → all_ascii_digits d →
       numeral_char c = false → JSString.is_white_space c = false →
       age = VStr (w1 ++ d ++ c :: t) → errors r !! "age" = age_error)
  ∧ (age = str " 22 " → errors r !! "age" = None)
  ∧ (age = str "22abc" → errors r !! "age" = age_error).
Proof.
  cbv zeta. rewrite errors_age.
  pose proof (if_invalid_iff _ "Age must be an integer between 16 and 100" _
                (age_invalid_false (Get (VObject Ordinary props) "age")))
    as [Hsome Hnone].
  split; [|split; [|split; [|split]]].
  - intros s Hage Htrim.
    assert (age_ok (VStr s)
            ↔ integer_16_100 (JSNumber.StrNumericLiteral (JSString.trim s)))
      as Hok.
    { cbn [age_ok]. rewrite StringToNumber_literal by done.
      split; [tauto|]. intros Hint. split; [|done].
      destruct Hint as (k & _ & Hk).
      by destruct (JSNumber.StrNumericLiteral _). }
    rewrite Hage in Hsome, Hnone |- *. by rewrite Hsome, Hnone, Hok.
  - intros w1 d w2 Hw1 Hw2 Hne Hd%all_ascii_digits_all_digits Hk Hage.
    apply Hnone. rewrite Hage. cbn [age_ok].
    rewrite StringToNumber_padded_digits by done.
    destruct (to_binary64_16_100 _ Hk) as (neg & m & e & -> & Hvalid & Hval).
    split; [done|]. by exists (JSNumber.digits_value 10 d 0).
  - intros w1 d c t Hw1 Hne Hd%all_ascii_digits_all_digits Hc Hcws Hage.
    apply Hsome. rewrite Hage. cbn [age_ok].
    rewrite StringToNumber_digits_junk by done. by intros [? _].
  - intros ->. vm_compute. reflexivity.
  - intros ->. vm_compute. reflexivity.
Qed.

Lemma age_string_whole_parse_witness :
  let age_error (s : string) :=
    errors (validateForm (object [("age", str s)])) !! "age" in
  age_error " 22 " = None
  ∧ age_error "22abc" = Some "Age must be an integer between 16 and 100".
Proof.
  cbv zeta. apply conj.
  - destruct (age_string_whole_parse (list_to_map [("age", str " 22 ")]))
      as (_ & Hpadded & _).
    apply (Hpadded (JSString.lit " ") (JSString.lit "22") (JSString.lit " "));
      try (by repeat constructor); try (vm_compute; reflexivity).
  - destruct (age_string_whole_parse (list_to_map [("age", str "22abc")]))
      as (_ & _ & Hjunk & _).
    apply (Hjunk [] (JSString.lit "22") 97%N (JSString.lit "bc"));
      try (by repeat constructor); try (vm_compute; reflexivity).
Defined.

(** ** The two forms of the specification *)

Example admission_form_valid :
  validateForm admission_form = {| isValid := true; errors := ∅ |}.
Proof. vm_compute. reflexivity. Qed.

Example rejected_form_errors :
  isValid (validateForm rejected_form) = false
  ∧ dom (errors (validateForm rejected_form))
    = list_to_set ["name"; "email"; "phone"; "age"; "pincode"; "state";
                   "agreeTerms"].
Proof. split; vm_compute; reflexivity. Qed.

(** * Further properties of the validator *)

(** ** The errors object as a whole *)

Lemma lookup_put_if_Some c key msg e k m :
  put_if c key msg e !! k = Some m →
  (k = key ∧ m = msg) ∨ e !! k = Some m.
Proof.
  destruct c; cbn; [|by right].
  destruct (decide (key = k)) as [->|Hne].
  - rewrite lookup_insert_eq. intros [= <-]. by left.
  - rewrite lookup_insert_ne by done. by right.
Qed.

(** The entry of any key in the errors object of a record. *)
Lemma errors_lookup props key :
  errors (validateForm (VObject Ordinary props)) !! key
  = if field_invalid (VObject Ordinary props) key then message_of key else None.
Proof.
  unfold field_invalid, message_of.
  destruct (String.eqb_spec key "form") as [->|Hform].
  { rewrite validateForm_record. cbn [errors]. unfold field_errors.
    repeat (rewrite lookup_put_if_ne by done). by rewrite lookup_empty. }
  destruct (String.eqb_spec key "name") as [->|Hname]; [apply errors_name|].
  destruct (String.eqb_spec key "email") as [->|Hemail]; [apply errors_email|].
  destruct (String.eqb_spec key "phone") as [->|Hphone]; [apply errors_phone|].
  destruct (String.eqb_spec key "age") as [->|Hage]; [apply errors_age|].
  destruct (String.eqb_spec key "pincode") as [->|Hpin]; [apply errors_pincode|].
  destruct (String.eqb_spec key "state") as [->|Hstate]; [apply errors_state|].
  destruct (String.eqb_spec key "agreeTerms") as [->|Hagree];
    [apply errors_agreeTerms|].
  rewrite validateForm_record. cbn [errors]. unfold field_errors.
  repeat (rewrite lookup_put_if_ne by done). by rewrite lookup_empty.
Qed.

Lemma not_object_form_error v :
  (∀ props, v ≠ VObject Ordinary props) →
  validateForm v
  = {| isValid := false; errors := {[ "form" := "Invalid form data" ]} |}.
Proof.
  intros Hv. destruct v as [| | | | | | |[] props]; try reflexivity.
  by destruct (Hv props).
Qed.

(** X1: whatever the input, every entry of the errors object is a known
    key with the one message that belongs to it. *)
Theorem errors_entries_fixed (formData : value) (key msg : string) :
  errors (validateForm formData) !! key = Some msg →
  message_of key = Some msg ∧ (key = "form" ∨ key ∈ field_keys).
Proof.
  destruct formData as [| | | | | | |[] props];
    try (rewrite not_object_form_error by done; cbn [errors];
         intros [<- <-]%lookup_singleton_Some; split; [done|by left]).
  rewrite errors_lookup.
  destruct (field_invalid (VObject Ordinary props) key) eqn:Hinv; [|done].
  intros Hmsg. split; [done|].
  unfold field_invalid in Hinv. unfold field_keys.
  destruct (String.eqb_spec key "form") as [->|_]; [by left|]. right.
  destruct (String.eqb_spec key "name") as [->|_]; [set_solver|].
  destruct (String.eqb_spec key "email") as [->|_]; [set_solver|].
  destruct (String.eqb_spec key "phone") as [->|_]; [set_solver|].
  destruct (String.eqb_spec key "age") as [->|_]; [set_solver|].
  destruct (String.eqb_spec key "pincode") as [->|_]; [set_solver|].
  destruct (String.eqb_spec key "state") as [->|_]; [set_solver|].
  destruct (String.eqb_spec key "agreeTerms") as [->|_]; [set_solver|].
  done.
Qed.

Lemma errors_entries_fixed_witness :
  message_of "age" = Some "Age must be an integer between 16 and 100"
  ∧ ("age" = "form" ∨ "age" ∈ field_keys).
Proof.
  apply (errors_entries_fixed (object [("age", str "abc")])).
  vm_compute. reflexivity.
Defined.

Lemma size_put_if_le c key msg (e : gmap string string) :
  (size (put_if c key msg e) ≤ S (size e))%nat.
Proof.
  destruct c; cbn; [|lia]. rewrite map_size_insert.
  destruct (e !! key); cbn; lia.
Qed.

Lemma field_errors_size o : (size (field_errors o) ≤ 7)%nat.
Proof.
  unfold field_errors.
  repeat (etrans; [apply size_put_if_le|]; apply le_n_S).
  by rewrite map_size_empty.
Qed.

(** X2: the errors object has the key [form] exactly when the input is not
    a record; a record gets at most seven errors, one per field. *)
Theorem form_error_iff_not_record (formData : value) :
  (errors (validateForm formData) !! "form" = Some "Invalid form data"
   ↔ ¬ is_record formData)
  ∧ (errors (validateForm formData) !! "form" = None ↔ is_record formData)
  ∧ (size (errors (validateForm formData)) ≤ 7)%nat.
Proof.
  destruct formData as [| | | | | | |[] props];
    try (rewrite not_object_form_error by done; cbn [errors];
         rewrite lookup_singleton_eq, map_size_singleton;
         split; [|split]; [|split; [done|]|lia];
         [split; [intros _ (Hty & Hnull & Harr); done|done]
         |intros (Hty & Hnull & Harr); done]).
  assert (is_record (VObject Ordinary props)) as Hrec by (by repeat split).
  assert (errors (validateForm (VObject Ordinary props)) !! "form" = None)
    as -> by (by rewrite errors_lookup).
  split; [|split].
  - split; [done|]. intros Hnot. by destruct Hnot.
  - done.
  - rewrite validateForm_record. cbn [errors]. apply field_errors_size.
Qed.

Lemma isValid_record props :
  isValid (validateForm (VObject Ordinary props)) = true
  ↔ field_errors (VObject Ordinary props) = ∅.
Proof.
  rewrite validateForm_record. cbn [isValid]. unfold Object_keys.
  by rewrite Nat.eqb_eq, length_fmap, length_map_to_list, map_size_empty_iff.
Qed.

Lemma put_if_empty c key msg (e : gmap string string) :
  put_if c key msg e = ∅ ↔ c = false ∧ e = ∅.
Proof.
  destruct c; cbn.
  - split; [|by intros [? _]]. intros Hins. by apply insert_non_empty in Hins.
  - split; [done|by intros [_ ?]].
Qed.

Lemma agreeTerms_invalid_false v : agreeTerms_invalid v = false ↔ ¬ falsy v.
Proof.
  unfold agreeTerms_invalid. rewrite negb_false_iff, <-ToBoolean_false.
  by destruct (ToBoolean v).
Qed.

(** X3: a record is valid exactly when all seven fields pass their rule,
    and then the result is [{ isValid: true, errors: {} }]. *)
Theorem isValid_iff_all_fields_ok (props : gmap string value) :
  let o := VObject Ordinary props in
  let all_ok :=
    name_ok (Get o "name") ∧ email_ok (Get o "email")
    ∧ phone_ok (Get o "phone") ∧ age_ok (Get o "age")
    ∧ pincode_ok (Get o "pincode")
    ∧ state_ok (spec_effective_state (props !! "state"))
    ∧ ¬ falsy (Get o "agreeTerms") in
  (isValid (validateForm o) = true ↔ all_ok)
  ∧ (validateForm o = {| isValid := true; errors := ∅ |} ↔ all_ok).
Proof.
  cbv zeta.
  assert (field_errors (VObject Ordinary props) = ∅
          ↔ name_ok (Get (VObject Ordinary props) "name")
            ∧ email_ok (Get (VObject Ordinary props) "email")
            ∧ phone_ok (Get (VObject Ordinary props) "phone")
            ∧ age_ok (Get (VObject Ordinary props) "age")
            ∧ pincode_ok (Get (VObject Ordinary props) "pincode")
            ∧ state_ok (spec_effective_state (props !! "state"))
            ∧ ¬ falsy (Get (VObject Ordinary props) "agreeTerms")) as Hempty.
  { unfold field_errors. rewrite !put_if_empty.
    rewrite name_invalid_false, email_invalid_false, phone_invalid_false,
      age_invalid_false, pincode_invalid_false, state_invalid_false,
      agreeTerms_invalid_false. tauto. }
  split; [by rewrite isValid_record|].
  rewrite <-Hempty, validateForm_record. split.
  - by intros [= _ ->].
  - intros ->. reflexivity.
Qed.

Lemma Get_insert_ne props k v key :
  k ≠ key →
  Get (VObject Ordinary (<[k := v]> props)) key = Get (VObject Ordinary props) key.
Proof. intros Hne. cbn. by rewrite lookup_insert_ne. Qed.

Lemma Get_delete_ne props k key :
  k ≠ key →
  Get (VObject Ordinary (delete k props)) key = Get (VObject Ordinary props) key.
Proof. intros Hne. cbn. by rewrite lookup_delete_ne. Qed.

Lemma field_invalid_read o o' key :
  Get o key = Get o' key → field_invalid o key = field_invalid o' key.
Proof.
  intros Hget. unfold field_invalid.
  destruct (String.eqb_spec key "name") as [->|_]; [by rewrite Hget|].
  destruct (String.eqb_spec key "email") as [->|_]; [by rewrite Hget|].
  destruct (String.eqb_spec key "phone") as [->|_]; [by rewrite Hget|].
  destruct (String.eqb_spec key "age") as [->|_]; [by rewrite Hget|].
  destruct (String.eqb_spec key "pincode") as [->|_]; [by rewrite Hget|].
  destruct (String.eqb_spec key "state") as [->|_]; [by rewrite Hget|].
  destruct (String.eqb_spec key "agreeTerms") as [->|_]; [by rewrite Hget|].
  done.
Qed.

(** X4: the fields are checked independently: setting one property leaves
    the error of every other key as it was, so a bad field never hides or
    causes the error of another. *)
Theorem field_errors_independent (props : gmap string value)
    (k : string) (v : value) (key : string) :
  k ≠ key →
  errors (validateForm (VObject Ordinary (<[k := v]> props))) !! key
  = errors (validateForm (VObject Ordinary props)) !! key.
Proof.
  intros Hne. rewrite !errors_lookup.
  by rewrite (field_invalid_read _ (VObject Ordinary props))
    by (by apply Get_insert_ne).
Qed.

Lemma field_errors_independent_witness :
  errors (validateForm (object [("name", str "Asha"); ("age", str "abc")]))
    !! "name"
  = errors (validateForm (object [("name", str "Asha")])) !! "name".
Proof.
  change (object [("name", str "Asha"); ("age", str "abc")])
    with (VObject Ordinary
            (<["name" := str "Asha"]>
               (<["age" := str "abc"]> (∅ : gmap string value)))).
  rewrite insert_insert_ne by done.
  etrans; [apply field_errors_independent; done|].
  vm_compute. reflexivity.
Defined.

Lemma field_errors_read o o' :
  (∀ key, key ∈ field_keys → Get o key = Get o' key) →
  field_errors o = field_errors o'.
Proof.
  intros Hget. unfold field_errors.
  rewrite !(Hget "agreeTerms"), !(Hget "state"), !(Hget "pincode"),
    !(Hget "age"), !(Hget "phone"), !(Hget "email"), !(Hget "name")
    by (unfold field_keys; set_solver).
  reflexivity.
Qed.

(** X5: properties other than the seven fields are ignored: adding,
    changing or removing one does not change the result. *)
Theorem other_properties_ignored (props : gmap string value)
    (k : string) (v : value) :
  k ∉ field_keys →
  validateForm (VObject Ordinary (<[k := v]> props))
  = validateForm (VObject Ordinary props)
  ∧ validateForm (VObject Ordinary (delete k props))
    = validateForm (VObject Ordinary props).
Proof.
  intros Hk. rewrite !validateForm_record.
  rewrite (field_errors_read (VObject Ordinary (<[k := v]> props))
             (VObject Ordinary props)).
  2:{ intros key Hkey. apply Get_insert_ne. by intros ->. }
  rewrite (field_errors_read (VObject Ordinary (delete k props))
             (VObject Ordinary props)).
  2:{ intros key Hkey. apply Get_delete_ne. by intros ->. }
  done.
Qed.

Lemma other_properties_ignored_witness :
  validateForm (VObject Ordinary (<["nickname" := str "Sonu"]>
                                    (list_to_map [("name", str "Asha")])))
  = validateForm (object [("name", str "Asha")]).
Proof.
  assert ("nickname" ∉ field_keys) as Hk.
  { unfold field_keys. rewrite !not_elem_of_cons. repeat split; try done.
    apply not_elem_of_nil. }
  exact (proj1 (other_properties_ignored
                  (list_to_map [("name", str "Asha")]) "nickname"
                  (str "Sonu") Hk)).
Defined.

(** X6: a field that is missing, [undefined] or [null] is always an error:
    each of the seven keys then carries its message. *)
Theorem missing_field_error (props : gmap string value) (key : string) :
  let o := VObject Ordinary props in
  key ∈ field_keys →
  Get o key = VUndefined ∨ Get o key = VNull →
  errors (validateForm o) !! key = message_of key
  ∧ is_Some (message_of key)
  ∧ isValid (validateForm o) = false.
Proof.
  cbv zeta. intros Hkey Hget.
  assert (field_invalid (VObject Ordinary props) key = true) as Hinv.
  { unfold field_keys in Hkey. rewrite !elem_of_cons, elem_of_nil in Hkey.
    unfold field_invalid.
    destruct Hkey as [->|[->|[->|[->|[->|[->|[->|[]]]]]]]]; cbn [String.eqb];
      (destruct Hget as [Hget|Hget]; rewrite Hget; reflexivity). }
  assert (errors (validateForm (VObject Ordinary props)) !! key = message_of key)
    as Herr by (by rewrite errors_lookup, Hinv).
  assert (is_Some (message_of key)) as Hsome.
  { unfold field_keys in Hkey. rewrite !elem_of_cons, elem_of_nil in Hkey.
    destruct Hkey as [->|[->|[->|[->|[->|[->|[->|[]]]]]]]]; by eexists. }
  split; [done|]. split; [done|].
  destruct (isValid (validateForm (VObject Ordinary props))) eqn:Hvalid; [|done].
  apply isValid_record in Hvalid. rewrite validateForm_record in Herr.
  cbn [errors] in Herr. rewrite Hvalid, lookup_empty in Herr.
  destruct Hsome as [msg Hmsg]. congruence.
Qed.

Lemma missing_field_error_witness :
  let props : gmap string value :=
    list_to_map [("name", str "Asha"); ("age", VNull)] in
  (errors (validateForm (VObject Ordinary props)) !! "phone"
   = message_of "phone"
   ∧ errors (validateForm (VObject Ordinary props)) !! "age" = message_of "age")
  ∧ isValid (validateForm (VObject Ordinary props)) = false.
Proof.
  intros props.
  assert ("phone" ∈ field_keys) as Hphone_key
    by (unfold field_keys; rewrite !elem_of_cons; tauto).
  assert ("age" ∈ field_keys) as Hage_key
    by (unfold field_keys; rewrite !elem_of_cons; tauto).
  assert (Get (VObject Ordinary props) "phone" = VUndefined) as Hphone_get
    by (vm_compute; reflexivity).
  assert (Get (VObject Ordinary props) "age" = VNull) as Hage_get
    by (vm_compute; reflexivity).
  pose proof (missing_field_error props "phone" Hphone_key (or_introl Hphone_get))
    as (Hphone & _ & Hvalid).
  pose proof (missing_field_error props "age" Hage_key (or_intror Hage_get))
    as (Hage & _ & _).
  exact (conj (conj Hphone Hage) Hvalid).
Defined.

(** ** White space around name, state and age *)

Lemma trimStart_app s w :
  JSString.trimStart s ≠ [] →
  JSString.trimStart (s ++ w) = JSString.trimStart s ++ w.
Proof.
  induction s as [|c s IH]; [done|]. cbn.
  by destruct (JSString.is_white_space c).
Qed.

Lemma trimStart_nil s : JSString.trimStart s = [] → all_white_space s.
Proof.
  induction s as [|c s IH]; [by constructor|]. cbn.
  destruct (JSString.is_white_space c) eqn:Hc; [|done].
  intros Hs. constructor; [done|by apply IH].
Qed.

Lemma Get_insert_eq props key v :
  Get (VObject Ordinary (<[key := v]> props)) key = v.
Proof. cbn. by rewrite lookup_insert_eq. Qed.

(** [trim] does not see white space added at either end. *)
Lemma trim_padded w1 s w2 :
  all_white_space w1 → all_white_space w2 →
  JSString.trim (w1 ++ s ++ w2) = JSString.trim s.
Proof.
  intros Hw1 Hw2. unfold JSString.trim. rewrite trimStart_ws by done.
  destruct (JSString.trimStart s) as [|c r] eqn:Hs.
  - apply trimStart_nil in Hs.
    rewrite <-(app_nil_r (s ++ w2)), trimStart_ws; [done|].
    by apply Forall_app.
  - rewrite trimStart_app by (by rewrite Hs). rewrite Hs.
    by apply trimEnd_app_ws.
Qed.

(** X7: white space around the name or the state does not change the
    verdict on that field: only the trimmed string is looked at. *)
Theorem name_state_ignore_padding (props : gmap string value)
    (w1 s w2 : jsstring) :
  all_white_space w1 → all_white_space w2 →
  errors (validateForm (VObject Ordinary (<["name" := VStr (w1 ++ s ++ w2)]> props)))
    !! "name"
  = errors (validateForm (VObject Ordinary (<["name" := VStr s]> props))) !! "name"
  ∧ errors (validateForm
              (VObject Ordinary (<["state" := VStr (w1 ++ s ++ w2)]> props)))
      !! "state"
    = errors (validateForm (VObject Ordinary (<["state" := VStr s]> props)))
        !! "state".
Proof.
  intros Hw1 Hw2. rewrite !errors_name, !errors_state, !Get_insert_eq.
  unfold state_invalid. cbn [name_invalid nullish_coalesce].
  by rewrite !trim_padded by done.
Qed.

Lemma name_state_ignore_padding_witness :
  errors (validateForm (VObject Ordinary (<["name" := str "  Asha "]> ∅)))
    !! "name"
  = errors (validateForm (VObject Ordinary (<["name" := str "Asha"]> ∅)))
      !! "name".
Proof.
  assert (all_white_space (JSString.lit "  ")) as Hw1 by (by repeat constructor).
  assert (all_white_space (JSString.lit " ")) as Hw2 by (by repeat constructor).
  exact (proj1 (name_state_ignore_padding ∅ (JSString.lit "  ")
                  (JSString.lit "Asha") (JSString.lit " ") Hw1 Hw2)).
Defined.

Lemma StringToNumber_padded w1 s w2 :
  all_white_space w1 → all_white_space w2 →
  JSNumber.StringToNumber (w1 ++ s ++ w2) = JSNumber.StringToNumber s.
Proof.
  intros Hw1 Hw2. unfold JSNumber.StringToNumber. by rewrite trim_padded.
Qed.

(** X8: white space around an age given as a string does not change the
    verdict on the age: [Number] skips it. *)
Theorem age_ignores_padding (props : gmap string value) (w1 s w2 : jsstring) :
  all_white_space w1 → all_white_space w2 →
  errors (validateForm (VObject Ordinary (<["age" := VStr (w1 ++ s ++ w2)]> props)))
    !! "age"
  = errors (validateForm (VObject Ordinary (<["age" := VStr s]> props))) !! "age".
Proof.
  intros Hw1 Hw2. rewrite !errors_age, !Get_insert_eq. cbn [age_invalid].
  by rewrite StringToNumber_padded, trim_padded by done.
Qed.

Lemma age_ignores_padding_witness :
  errors (validateForm (VObject Ordinary (<["age" := str " 1e2  "]> ∅))) !! "age"
  = errors (validateForm (VObject Ordinary (<["age" := str "1e2"]> ∅))) !! "age".
Proof.
  assert (all_white_space (JSString.lit " ")) as Hw1 by (by repeat constructor).
  assert (all_white_space (JSString.lit "  ")) as Hw2 by (by repeat constructor).
  exact (age_ignores_padding ∅ (JSString.lit " ") (JSString.lit "1e2")
           (JSString.lit "  ") Hw1 Hw2).
Defined.

(** ** Ages written as integers *)

Lemma denotes_integer_inj x k k' :
  denotes_integer x k → denotes_integer x k' → k = k'.
Proof.
  destruct x as [| |neg m e]; try done. cbn. intros Hk Hk'.
  assert (0 < 2 ^ Z.max (- e) 0) by (apply Z.pow_pos_nonneg; lia).
  apply (Z.mul_cancel_r _ _ (2 ^ Z.max (- e) 0)); [lia|congruence].
Qed.

Lemma integer_16_100_denotes x k :
  denotes_integer x k → integer_16_100 x ↔ 16 ≤ k ≤ 100.
Proof.
  intros Hk. split.
  - intros (k' & Hk' & Hden). by rewrite (denotes_integer_inj x k k').
  - intros Hrange. by exists k.
Qed.

Lemma round_half_even_1 n : JSNumber.round_half_even n 1 = n.
Proof.
  unfold JSNumber.round_half_even. by rewrite Z.div_1_r, Z.mod_1_r.
Qed.

Lemma log2_ratio_1 k : 0 < k → JSNumber.log2_ratio k 1 = Z.log2 k.
Proof.
  intros Hk. unfold JSNumber.log2_ratio.
  change (Z.log2 1) with 0. rewrite Z.sub_0_r.
  pose proof (Z.log2_nonneg k). pose proof (Z.log2_spec k Hk) as [Hlow _].
  destruct (Z.leb_spec 0 (Z.log2 k)); [|lia].
  destruct (Z.leb_spec (1 * 2 ^ Z.log2 k) k); [done|lia].
Qed.

(** Integers below [2^53] are binary64 values: rounding returns them. *)
Lemma to_binary64_exact k :
  0 < k < 2 ^ 53 →
  ∃ m e, JSNumber.to_binary64 false k 1 = Finite false m e
         ∧ denotes_integer (Finite false m e) k.
Proof.
  intros [Hpos Hlt]. unfold JSNumber.to_binary64.
  destruct (Z.eqb_spec k 0); [lia|]. rewrite log2_ratio_1 by done.
  pose proof (Z.log2_nonneg k) as HL0.
  pose proof (Z.log2_spec k Hpos) as [Hlow Hhigh].
  assert (Z.log2 k < 53) as HL by (apply Z.log2_lt_pow2; lia).
  set (L := Z.log2 k) in *.
  rewrite Z.max_l by lia.
  assert (0 < 2 ^ (52 - L)) as Hp by (apply Z.pow_pos_nonneg; lia).
  assert (k * 2 ^ (52 - L) < 2 ^ 53) as Hm.
  { replace (2 ^ 53) with (2 ^ (L + 1) * 2 ^ (52 - L))
      by (rewrite <-Z.pow_add_r by lia; f_equal; lia).
    apply Z.mul_lt_mono_pos_r; lia. }
  assert ((if 0 <=? L - 52
           then JSNumber.round_half_even k (1 * 2 ^ (L - 52))
           else JSNumber.round_half_even (k * 2 ^ (- (L - 52))) 1)
          = k * 2 ^ (52 - L)) as ->.
  { destruct (Z.leb_spec 0 (L - 52)).
    - replace L with 52 by lia. cbn [Z.sub Z.add Z.opp Z.pos_sub Z.pow Z.pow_pos
        Pos.iter Z.mul Pos.mul]. rewrite round_half_even_1. lia.
    - rewrite round_half_even_1. f_equal. f_equal. lia. }
  destruct (Z.eqb_spec (k * 2 ^ (52 - L)) (2 ^ 53)); [lia|].
  destruct (Z.ltb_spec 971 (L - 52)); [lia|].
  eexists _, _. split; [done|]. cbn [denotes_integer JSNumber.signed].
  rewrite Z2N.id by lia.
  rewrite (Z.max_r (L - 52) 0), (Z.max_l (- (L - 52)) 0) by lia.
  rewrite Z.pow_0_r, Z.mul_1_r. by replace (- (L - 52)) with (52 - L) by lia.
Qed.

Lemma round_half_even_bounds n d :
  n / d ≤ JSNumber.round_half_even n d ≤ n / d + 1.
Proof.
  unfold JSNumber.round_half_even.
  destruct (2 * (n mod d) ?= d); [destruct (Z.even (n / d))|..]; lia.
Qed.

Lemma gt_100_large m e :
  2 ^ 52 ≤ m → 0 ≤ e → number_invalid (Finite false (Z.to_N m) e) = true.
Proof.
  intros Hm He. unfold number_invalid, JSNumber.gt.
  change (JSNumber.of_Z 100) with (Finite false 100 0).
  cbn [JSNumber.lt JSNumber.signed]. unfold JSNumber.compare_finite.
  change (JSNumber.signed false 100) with 100.
  assert (0 < 2 ^ 52) by done.
  rewrite Z2N.id, (Z.min_l 0 e), !Z.sub_0_r, Z.pow_0_r by lia.
  assert (1 ≤ 2 ^ e) by (pose proof (Z.pow_pos_nonneg 2 e); lia).
  assert (Z.of_N 100 * 1 < m * 2 ^ e) as Hlt by nia.
  apply Z.compare_lt_iff in Hlt. rewrite Hlt. apply orb_true_r.
Qed.

(** From [2^53] on, rounding never comes back below [2^52]. *)
Lemma to_binary64_large k :
  2 ^ 53 ≤ k → number_invalid (JSNumber.to_binary64 false k 1) = true.
Proof.
  intros Hk. assert (0 < k) as Hpos by (assert (0 < 2 ^ 53) by done; lia).
  unfold JSNumber.to_binary64.
  destruct (Z.eqb_spec k 0); [lia|]. rewrite log2_ratio_1 by done.
  pose proof (Z.log2_spec k Hpos) as [Hlow Hhigh].
  assert (53 ≤ Z.log2 k) as HL.
  { rewrite <-(Z.log2_pow2 53) by lia. by apply Z.log2_le_mono. }
  set (L := Z.log2 k) in *.
  rewrite Z.max_l by lia.
  destruct (Z.leb_spec 0 (L - 52)); [|lia].
  rewrite Z.mul_1_l.
  pose proof (round_half_even_bounds k (2 ^ (L - 52))) as [Hq _].
  assert (0 < 2 ^ (L - 52)) as Hd by (apply Z.pow_pos_nonneg; lia).
  assert (2 ^ 52 ≤ k / 2 ^ (L - 52)) as Hq52.
  { apply Z.div_le_lower_bound; [done|].
    rewrite <-Z.pow_add_r by lia. by replace (L - 52 + 52) with L by lia. }
  set (m0 := JSNumber.round_half_even k (2 ^ (L - 52))) in *.
  destruct (m0 =? 2 ^ 53).
  - destruct (971 <? L - 52 + 1); [done|]. by apply gt_100_large; [|lia].
  - destruct (971 <? L - 52); [done|]. apply gt_100_large; lia.
Qed.

Lemma digits_value_nonneg d acc :
  all_digits d → 0 ≤ acc → 0 ≤ JSNumber.digits_value 10 d acc.
Proof.
  intros Hd. revert acc. induction Hd as [|c d Hc _ IH]; intros acc Hacc; [done|].
  cbn [JSNumber.digits_value]. apply IH.
  unfold JSNumber.digit_of. rewrite Hc. unfold default, from_option, Datatypes.id.
  apply is_digit_range in Hc. lia.
Qed.

(** An integer written in decimal is in range as a Number exactly when
    the integer is. *)
Lemma number_invalid_integer k :
  0 ≤ k →
  number_invalid (JSNumber.to_binary64 false k 1) = false ↔ 16 ≤ k ≤ 100.
Proof.
  intros Hk. assert (0 < 2 ^ 53) as H53 by done.
  destruct (decide (k = 0)) as [->|Hk0]; [by split; [|lia]|].
  destruct (Z.lt_ge_cases k (2 ^ 53)) as [Hsmall|Hlarge].
  - destruct (to_binary64_exact k) as (m & e & -> & Hden); [lia|].
    by rewrite number_invalid_false, (integer_16_100_denotes _ k).
  - rewrite to_binary64_large by done. split; [done|].
    assert (100 < 2 ^ 53) by done. lia.
Qed.

(** X9: an age that is an integer is accepted exactly when the integer is
    in [16 .. 100], whether it comes as a Number or as a decimal numeral
    in a string (with or without white space around it); the two forms of
    the same integer get the same verdict. *)
Theorem age_integer_iff_in_range (props : gmap string value) :
  let r := validateForm (VObject Ordinary props) in
  let age := Get (VObject Ordinary props) "age" in
  (∀ x k, age = VNum x → denotes_integer x k →
     (errors r !! "age" = None ↔ 16 ≤ k ≤ 100))
  ∧ (∀ w1 d w2,
       all_white_space w1 → all_white_space w2 →
       d ≠ [] → all_ascii_digits d → age = VStr (w1 ++ d ++ w2) →
       (errors r !! "age" = None ↔ 16 ≤ JSNumber.digits_value 10 d 0 ≤ 100)).
Proof.
  cbv zeta. rewrite errors_age. split.
  - intros x k -> Hden. cbn [age_invalid].
    destruct (number_invalid x) eqn:Hinv.
    + split; [done|]. intros Hk. exfalso.
      apply (integer_16_100_denotes x k Hden), number_invalid_false in Hk.
      congruence.
    + split; [|done]. intros _.
      by apply (integer_16_100_denotes x k Hden), number_invalid_false.
  - intros w1 d w2 Hw1 Hw2 Hne Hd%all_ascii_digits_all_digits ->.
    cbn [age_invalid].
    rewrite StringToNumber_padded_digits, trim_padded_digits by done.
    pose proof (number_invalid_integer _ (digits_value_nonneg d 0 Hd (Z.le_refl 0)))
      as Hiff.
    replace (JSString.eqb d (JSString.lit "")) with false
      by (symmetry; by apply eqb_nil).
    destruct (number_invalid _) eqn:Hinv.
    + rewrite orb_true_r. split; [done|]. intros Hk. apply Hiff in Hk. congruence.
    + rewrite orb_false_r. cbn [orb].
      destruct (JSNumber.isNaN _) eqn:Hnan.
      * exfalso. destruct (JSNumber.to_binary64 _ _ _); try done.
      * split; [|done]. intros _. by apply Hiff.
Qed.

Lemma age_integer_iff_in_range_witness :
  (errors (validateForm (object [("age", num 16)])) !! "age" = None
   ↔ 16 ≤ 16 ≤ 100)
  ∧ (errors (validateForm (object [("age", str " 0101 ")])) !! "age" = None
     ↔ 16 ≤ JSNumber.digits_value 10 (JSString.lit "0101") 0 ≤ 100).
Proof.
  split.
  - destruct (age_integer_iff_in_range (list_to_map [("age", num 16)]))
      as [Hnum _].
    apply (Hnum (JSNumber.of_Z 16) 16); vm_compute; reflexivity.
  - destruct (age_integer_iff_in_range (list_to_map [("age", str " 0101 ")]))
      as [_ Hstr].
    apply (Hstr (JSString.lit " ") (JSString.lit "0101") (JSString.lit " "));
      by repeat constructor.
Defined.

(** ** Addresses of the form local@domain *)

Lemma occurrences_app c a b :
  occurrences c (a ++ b) = (occurrences c a + occurrences c b)%nat.
Proof.
  induction a as [|x a IH]; [done|]. cbn. rewrite IH.
  by destruct (c =? x)%N.
Qed.

Lemma occurrences_not_elem c s : c ∉ s → occurrences c s = 0%nat.
Proof.
  intros Hc. apply occurrences_0, first_occ_None. intros j Hj.
  apply Hc. by eapply list_elem_of_lookup_2.
Qed.

(** X10: when neither the part before the ["@"] nor the part after it
    contains another ["@"], the address is accepted exactly when the part
    after the ["@"] contains a ["."]; nothing else is looked at, and the
    part before may even be empty. *)
Theorem email_local_at_domain (props : gmap string value) (a b : jsstring) :
  let r := validateForm (VObject Ordinary props) in
  64%N ∉ a → 64%N ∉ b →
  Get (VObject Ordinary props) "email" = VStr (a ++ 64%N :: b) →
  (errors r !! "email" = None ↔ 46%N ∈ b)
  ∧ (errors r !! "email" = Some "Invalid email format" ↔ 46%N ∉ b).
Proof.
  cbv zeta. intros Ha Hb Hemail. rewrite errors_email.
  assert (email_ok (VStr (a ++ 64%N :: b)) ↔ 46%N ∈ b) as Hok.
  { split.
    - intros (s & [= <-] & _ & i & j & Hi & Hj & Hij).
      destruct (decide (i < length a)%nat) as [Hlt|Hge].
      { rewrite lookup_app_l in Hi by done.
        destruct Ha. by eapply list_elem_of_lookup_2. }
      rewrite lookup_app_r in Hj by lia.
      destruct (j - length a)%nat as [|j'] eqn:Hj'; [lia|].
      cbn in Hj. by eapply list_elem_of_lookup_2.
    - intros [j' Hj']%list_elem_of_lookup_1.
      exists (a ++ 64%N :: b). split; [done|]. split.
      + rewrite occurrences_app. cbn [occurrences]. rewrite N.eqb_refl.
        by rewrite !occurrences_not_elem.
      + exists (length a), (length a + S j')%nat. repeat split; [..|lia].
        * by rewrite list_lookup_middle.
        * rewrite lookup_app_r by lia.
          by replace (length a + S j' - length a)%nat with (S j') by lia. }
  rewrite Hemail.
  pose proof (if_invalid_iff _ "Invalid email format" _
                (email_invalid_false (VStr (a ++ 64%N :: b)))) as [Hsome Hnone].
  by rewrite Hsome, Hnone, Hok.
Qed.

Lemma email_local_at_domain_witness :
  errors (validateForm (object [("email", str "@b.c")])) !! "email" = None
  ∧ errors (validateForm (object [("email", str "a.b@c")])) !! "email"
    = Some "Invalid email format".
Proof.
  split.
  - destruct (email_local_at_domain (list_to_map [("email", str "@b.c")])
                [] (JSString.lit "b.c")) as [Hnone _].
    + apply not_elem_of_nil.
    + refine (bool_decide_unpack _ _). vm_compute. exact I.
    + vm_compute. reflexivity.
    + apply Hnone. refine (bool_decide_unpack _ _). vm_compute. exact I.
  - destruct (email_local_at_domain (list_to_map [("email", str "a.b@c")])
                (JSString.lit "a.b") (JSString.lit "c")) as [_ Hsome].
    + refine (bool_decide_unpack _ _). vm_compute. exact I.
    + refine (bool_decide_unpack _ _). vm_compute. exact I.
    + vm_compute. reflexivity.
    + apply Hsome. refine (bool_decide_unpack _ _). vm_compute. exact I.
Defined.

(** ** Phone numbers and pincodes as numbers *)

Lemma digits_value_acc s acc :
  JSNumber.digits_value 10 s acc
  = acc * 10 ^ Z.of_nat (length s) + JSNumber.digits_value 10 s 0.
Proof.
  revert acc. induction s as [|c s IH]; intros acc.
  - cbn. lia.
  - cbn [JSNumber.digits_value length]. rewrite IH, (IH (0 * 10 + _)).
    rewrite Nat2Z.inj_succ, Z.pow_succ_r by lia. lia.
Qed.

Lemma digits_value_bound s :
  all_digits s → 0 ≤ JSNumber.digits_value 10 s 0 < 10 ^ Z.of_nat (length s).
Proof.
  induction 1 as [|c s Hc _ IH]; [done|].
  cbn [JSNumber.digits_value length]. rewrite digits_value_acc.
  unfold JSNumber.digit_of. rewrite Hc. unfold default, from_option, Datatypes.id.
  apply is_digit_range in Hc.
  rewrite Nat2Z.inj_succ, Z.pow_succ_r by lia.
  assert (0 < 10 ^ Z.of_nat (length s)) by (apply Z.pow_pos_nonneg; lia).
  nia.
Qed.

(** The value of a digit string from its first digit and the rest. *)
Lemma digits_value_cons c s :
  JSNumber.is_digit c = true →
  JSNumber.digits_value 10 (c :: s) 0
  = (Z.of_N c - 48) * 10 ^ Z.of_nat (length s) + JSNumber.digits_value 10 s 0.
Proof.
  intros Hc. cbn [JSNumber.digits_value]. rewrite digits_value_acc.
  unfold JSNumber.digit_of. rewrite Hc. unfold default, from_option, Datatypes.id.
  lia.
Qed.

(** X11: a phone string is accepted exactly when it is 10 ASCII digits
    that write a number from 6000000000 to 9999999999; a pincode string
    exactly when it is 6 ASCII digits that write a number from 100000 to
    999999. *)
Theorem phone_pincode_number_range (props : gmap string value) :
  let r := validateForm (VObject Ordinary props) in
  (∀ s, Get (VObject Ordinary props) "phone" = VStr s →
     (errors r !! "phone" = None
      ↔ length s = 10%nat ∧ all_ascii_digits s
        ∧ 6000000000 ≤ JSNumber.digits_value 10 s 0 ≤ 9999999999))
  ∧ (∀ s, Get (VObject Ordinary props) "pincode" = VStr s →
       (errors r !! "pincode" = None
        ↔ length s = 6%nat ∧ all_ascii_digits s
          ∧ 100000 ≤ JSNumber.digits_value 10 s 0 ≤ 999999)).
Proof.
  cbv zeta. rewrite errors_phone, errors_pincode. split.
  - intros s ->.
    pose proof (if_invalid_iff _ "Invalid Indian phone number" _
                  (phone_invalid_false (VStr s))) as [_ ->].
    split.
    + intros (s' & [= <-] & Hlen & Hd & c & Hhead & Hc).
      split; [done|]. split; [done|].
      destruct s as [|c' s]; [done|]. injection Hhead as ->.
      apply all_ascii_digits_all_digits in Hd.
      pose proof (Forall_inv Hd) as Hcd. cbn beta in Hcd.
      pose proof (digits_value_bound s (Forall_inv_tail Hd)) as Hv.
      rewrite digits_value_cons by done.
      injection Hlen as Hlen. rewrite Hlen in *.
      change (10 ^ Z.of_nat 9) with 1000000000 in *. lia.
    + intros (Hlen & Hd & Hv). exists s. split; [done|]. split; [done|].
      split; [done|]. destruct s as [|c s]; [done|]. exists c. split; [done|].
      pose proof Hd as Hd'. apply all_ascii_digits_all_digits in Hd'.
      pose proof (Forall_inv Hd') as Hcd. cbn beta in Hcd.
      pose proof (digits_value_bound s (Forall_inv_tail Hd')) as Hvs.
      rewrite digits_value_cons in Hv by done.
      injection Hlen as Hlen. rewrite Hlen in *.
      change (10 ^ Z.of_nat 9) with 1000000000 in *.
      apply is_digit_range in Hcd. lia.
  - intros s ->.
    pose proof (if_invalid_iff _ "Invalid Indian pincode" _
                  (pincode_invalid_false (VStr s))) as [_ ->].
    split.
    + intros (s' & [= <-] & Hlen & Hd & Hhead).
      split; [done|]. split; [done|].
      destruct s as [|c s]; [done|].
      apply all_ascii_digits_all_digits in Hd.
      pose proof (Forall_inv Hd) as Hcd. cbn beta in Hcd.
      pose proof (digits_value_bound s (Forall_inv_tail Hd)) as Hv.
      rewrite digits_value_cons by done.
      injection Hlen as Hlen. rewrite Hlen in *.
      change (10 ^ Z.of_nat 5) with 100000 in *.
      apply is_digit_range in Hcd.
      assert (c ≠ 48%N) by (intros ->; by apply Hhead). lia.
    + intros (Hlen & Hd & Hv). exists s. split; [done|]. split; [done|].
      split; [done|]. destruct s as [|c s]; [done|]. cbn [head].
      intros [= ->].
      pose proof Hd as Hd'. apply all_ascii_digits_all_digits in Hd'.
      pose proof (digits_value_bound s (Forall_inv_tail Hd')) as Hvs.
      rewrite digits_value_cons in Hv by done.
      injection Hlen as Hlen. rewrite Hlen in *.
      change (10 ^ Z.of_nat 5) with 100000 in *. lia.
Qed.

Lemma phone_pincode_number_range_witness :
  errors (validateForm (object [("phone", str "6000000000")])) !! "phone" = None
  ∧ errors (validateForm (object [("pincode", str "999999")])) !! "pincode"
    = None.
Proof.
  split.
  - destruct (phone_pincode_number_range
                (list_to_map [("phone", str "6000000000")])) as [Hphone _].
    apply (Hphone (JSString.lit "6000000000")); [vm_compute; reflexivity|].
    split; [reflexivity|]. split; [|vm_compute; split; discriminate].
    refine (bool_decide_unpack _ _). vm_compute. exact I.
  - destruct (phone_pincode_number_range
                (list_to_map [("pincode", str "999999")])) as [_ Hpin].
    apply (Hpin (JSString.lit "999999")); [vm_compute; reflexivity|].
    split; [reflexivity|]. split; [|vm_compute; split; discriminate].
    refine (bool_decide_unpack _ _). vm_compute. exact I.
Defined.
